(** * fetch-github-titles: the three scripts and their fetchers

    The repository holds three versions of one Node script:
    - [fetch-issue-titles.js] ([FunctionScript] below): plain functions, the
      titles kept in an object keyed by item type, written to a file;
    - the class based script writing to a file ([FileScript]);
    - the class based script printing to standard output ([StdoutScript]).

    The scripts talk to GitHub (one aggregate GraphQL query, paged REST
    queries, cursor paged GraphQL queries), read a token file, write progress
    and errors to the console and, for two of them, rewrite an output file.
    All of this is modelled by explicit state passing: a computation takes the
    file system and gives back its completion, the new file system and the
    events it emitted, in order. *)

From Stdlib Require Import ZArith QArith Qround.
From stdpp Require Import gmap strings list pretty.

Open Scope Z_scope.
Open Scope string_scope.
Open Scope list_scope.

(** ** Values *)

(** What a [throw], a rejected promise or a failed system call carries. *)
Inductive JsError :=
| TypeError (msg : string)
| RequestError (reason : string)
| SystemError (code : string).

(** One issue, pull request or discussion as the provider returns it. *)
Record Item := { number : Z; title : string }.

(** [response.repository] of the aggregate count query. *)
Record StatsResponse := {
  issues_totalCount : Z;
  pullRequests_totalCount : Z;
  discussions_totalCount : Z
}.

Record PageInfo := { endCursor : option string; hasNextPage : bool }.

(** [response.repository[itemType]] of the cursor paged query. *)
Record TitlesResponse := { edges : list Item; pageInfo : PageInfo }.

(** The response of [octokit.issues.listForRepo]. *)
Record OctokitResponse := { data : list Item }.

(** ** Requests *)

Record StatsRequest := {
  sq_owner : string;
  sq_repo : string;
  sq_authorization : string
}.

Record TitlesRequest := {
  tq_itemType : string;
  tq_owner : string;
  tq_repo : string;
  tq_perPage : Z;
  tq_cursor : option string;
  tq_authorization : string
}.

Record RestRequest := {
  rq_auth : string;
  rq_owner : string;
  rq_repo : string;
  rq_filter : string;
  rq_state : string;
  rq_per_page : Z;
  rq_page : Z
}.

(** A promise, seen from its end: it resolves with a value or rejects. *)
Inductive Promise (A : Type) :=
| Resolves (value : A)
| Rejects (reason : JsError).
Arguments Resolves {A} value.
Arguments Rejects {A} reason.

(** The provider.  A server may answer the same cursor request differently
    over time, so the answers to the cursor paged query are indexed by the
    position of the request in its fetch (1 for the first request). *)
Record Provider := {
  stats_answer : StatsRequest -> Promise StatsResponse;
  titles_answer : Z -> TitlesRequest -> Promise TitlesResponse;
  rest_answer : RestRequest -> Promise OctokitResponse
}.

(** ** Events *)

Inductive Stream := stdout | stderr.

Inductive Event :=
| StreamWrite (s : Stream) (text : string)
| ConsoleLog (text : string)
| ConsoleError (label : string) (e : JsError)
| StatsCall (q : StatsRequest)
| TitlesCall (q : TitlesRequest)
| RestCall (q : RestRequest)
| ReadFile (path : string)
| RmFile (path : string)
| AppendFile (path : string) (text : string).

Definition is_network (e : Event) : bool :=
  match e with
  | StatsCall _ | TitlesCall _ | RestCall _ => true
  | _ => false
  end.

Definition is_file_write (e : Event) : bool :=
  match e with
  | RmFile _ | AppendFile _ _ => true
  | _ => false
  end.

Definition is_titles_call (e : Event) : bool :=
  match e with TitlesCall _ => true | _ => false end.

Definition is_rest_call (e : Event) : bool :=
  match e with RestCall _ => true | _ => false end.

Definition is_progress (e : Event) : bool :=
  match e with StreamWrite _ _ => true | _ => false end.

Definition is_console_error (e : Event) : bool :=
  match e with ConsoleError _ _ => true | _ => false end.

(** ** Computations *)

Inductive Abrupt :=
| Throw (e : JsError)
| Exit (code : Z)
| OutOfFuel.

Inductive Completion (A : Type) :=
| Normal (a : A)
| Stopped (c : Abrupt).
Arguments Normal {A} a.
Arguments Stopped {A} c.

Record Result (A : Type) := mkResult {
  completion : Completion A;
  files_after : gmap string string;
  events : list Event
}.
Arguments mkResult {A} _ _ _.
Arguments completion {A} _.
Arguments files_after {A} _.
Arguments events {A} _.

(** The file system holds regular files only, each under the path by which
    the script names it: two spellings of one file ([token.txt],
    [./token.txt]) are not identified, and every path can be written to.  The
    statements below that speak of a completed run or of the calls made do not
    depend on this. *)
Definition Js (A : Type) : Type := gmap string string -> Result A.

Definition ret {A} (a : A) : Js A := fun fs => mkResult (Normal a) fs [].

Definition bind {A B} (m : Js A) (k : A -> Js B) : Js B := fun fs =>
  let r := m fs in
  match completion r with
  | Normal a =>
      let r' := k a (files_after r) in
      mkResult (completion r') (files_after r') (events r ++ events r')
  | Stopped c => mkResult (Stopped c) (files_after r) (events r)
  end.

Declare Scope js_scope.
Delimit Scope js_scope with js.
Notation "x <- m ;; k" := (bind m (fun x => k))
  (at level 100, m at next level, right associativity) : js_scope.
Notation "m ;;; k" := (bind m (fun _ => k))
  (at level 100, right associativity) : js_scope.
Open Scope js_scope.

Definition emit (e : Event) : Js unit := fun fs => mkResult (Normal tt) fs [e].

Definition stop {A} (c : Abrupt) : Js A := fun fs => mkResult (Stopped c) fs [].

Definition throw {A} (e : JsError) : Js A := stop (Throw e).

Definition process_exit {A} (code : Z) : Js A := stop (Exit code).

(** [try { body } catch (error) { handler }]: only a [throw] is caught. *)
Definition try_catch {A} (body : Js A) (handler : JsError -> Js A) : Js A := fun fs =>
  let r := body fs in
  match completion r with
  | Stopped (Throw e) =>
      let r' := handler e (files_after r) in
      mkResult (completion r') (files_after r') (events r ++ events r')
  | _ => r
  end.

(** [await p] *)
Definition await {A} (p : Promise A) : Js A :=
  match p with
  | Resolves v => ret v
  | Rejects e => throw e
  end.

(** [array.forEach(body)], the body updating the state [s]. *)
Fixpoint forEach {A S} (l : list A) (body : A -> S -> Js S) (s : S) : Js S :=
  match l with
  | [] => ret s
  | x :: l' => s' <- body x s ;; forEach l' body s'
  end.

(** [array.map(body)] with a body that has effects. *)
Fixpoint mapE {A B} (l : list A) (body : A -> Js B) : Js (list B) :=
  match l with
  | [] => ret []
  | x :: l' => y <- body x ;; ys <- mapE l' body ;; ret (y :: ys)
  end.

(** ** Console, file system, network *)

Definition process_write (s : Stream) (text : string) : Js unit := emit (StreamWrite s text).
Definition console_log (text : string) : Js unit := emit (ConsoleLog text).
Definition console_error (label : string) (e : JsError) : Js unit :=
  emit (ConsoleError label e).

(** [fs.readFileSync(path, 'utf8')] *)
Definition readFileSync (path : string) : Js string := fun fs =>
  match fs !! path with
  | Some text => mkResult (Normal text) fs [ReadFile path]
  | None => mkResult (Stopped (Throw (SystemError "ENOENT"))) fs [ReadFile path]
  end.

(** [fs.rmSync(path, {force: true})]: a missing file is not an error.  On
    the regular, writable files of the model the call cannot fail; a
    directory or a permission error, on which Node raises, is not modelled. *)
Definition rmSync_force (path : string) : Js unit := fun fs =>
  mkResult (Normal tt) (delete path fs) [RmFile path].

(** [fs.appendFileSync(path, text, 'utf8')]: creates the file when missing.
    The path is taken to be writable; a missing directory or a permission
    error, on which Node raises, is not modelled. *)
Definition appendFileSync (path text : string) : Js unit := fun fs =>
  mkResult (Normal tt)
           (<[path := default "" (fs !! path) +:+ text]> fs)
           [AppendFile path text].

Section Network.
Variable prov : Provider.

Definition graphql_stats (q : StatsRequest) : Js (Promise StatsResponse) :=
  emit (StatsCall q) ;;; ret (stats_answer prov q).

Definition graphql_titles (nth : Z) (q : TitlesRequest) : Js (Promise TitlesResponse) :=
  emit (TitlesCall q) ;;; ret (titles_answer prov nth q).

Definition octokit_issues_listForRepo (q : RestRequest) : Js (Promise OctokitResponse) :=
  emit (RestCall q) ;;; ret (rest_answer prov q).
End Network.

(** ** Built-ins *)

(** [Math.ceil] on the quotient of two numbers. *)
Definition Math_ceil (q : Q) : Z := Qceiling q.

Definition js_div (a b : Z) : Q := (inject_Z a / inject_Z b)%Q.

(** [Array.from({length: n}, (_, i) => f(i))]: a negative length counts as 0. *)
Definition Array_from_length {A} (n : Z) (f : Z -> A) : list A :=
  map (fun i => f (Z.of_nat i)) (seq 0 (Z.to_nat n)).

Inductive PromiseSettledResult (A : Type) :=
| fulfilled (value : option A)
| rejected (reason : JsError).
Arguments fulfilled {A} value.
Arguments rejected {A} reason.

(** [Promise.allSettled]: one result per promise, in the order of the input. *)
Definition Promise_allSettled {A} (ps : list (Promise A)) : list (PromiseSettledResult A) :=
  map (fun p => match p with
                | Resolves v => fulfilled (Some v)
                | Rejects e => rejected e
                end) ps.

(** [array.push(...xs)]: spreading [undefined] raises. *)
Definition push_spread {A} (arr : list A) (xs : option (list A)) : Js (list A) :=
  match xs with
  | Some l => ret (arr ++ l)
  | None => throw (TypeError "undefined is not iterable")
  end.

(** A number or a string inside a template literal. *)
Definition show (z : Z) : string := pretty z.
Definition show_undefined (o : option string) : string := default "undefined" o.

Definition CR : string := String (Ascii.ascii_of_nat 13) "".
Definition LF : string := String (Ascii.ascii_of_nat 10) "".

(** An element of [process.argv]; an absent one is [undefined].  The scripts
    only ever put a possibly absent element inside a string: the script path
    of the usage line and the output file named in the last line of the
    stdout script. *)
Definition argv_at (argv : list string) (i : nat) : string :=
  show_undefined (argv !! i).

(** An object with string keys that are not array indices: its own properties
    are enumerated in the order in which they were created. *)
Definition JsObject (V : Type) : Type := list (string * V).

Fixpoint obj_set {V} (o : JsObject V) (k : string) (v : V) : JsObject V :=
  match o with
  | [] => [(k, v)]
  | (k', v') :: o' =>
      if String.eqb k' k then (k', v) :: o' else (k', v') :: obj_set o' k v
  end.

Fixpoint obj_get {V} (o : JsObject V) (k : string) : option V :=
  match o with
  | [] => None
  | (k', v') :: o' => if String.eqb k' k then Some v' else obj_get o' k
  end.

Definition Object_entries {V} (o : JsObject V) : list (string * V) := o.

(** The counts object [{issues, pullRequests, discussions}]. *)
Record RepoStats := { issues : Z; pullRequests : Z; discussions : Z }.

(** What [for (const key in repoStats)] walks through, with [repoStats[key]];
    [undefined] has no properties to walk through. *)
Definition for_in (repoStats : option RepoStats) : list (string * Z) :=
  match repoStats with
  | None => []
  | Some rs =>
      [("issues", issues rs); ("pullRequests", pullRequests rs);
       ("discussions", discussions rs)]
  end.

(** [`${item.number},${item.title}`] *)
Definition title_line (i : Item) : string := show (number i) +:+ "," +:+ title i.

(** ** The fetchers

    The three scripts share the text of their fetchers up to the progress
    stream (standard output in the function script, standard error in the
    class based ones) and to what is kept of an item (the line
    [number,title] in the file scripts, the object [{number, title}] in the
    stdout script). *)

Section Fetchers.
Variable prov : Provider.
Variable progress : Stream.
Variable R : Type.
(** what a fulfilled page adds to the array *)
Variable collect : list R -> option OctokitResponse -> Js (list R).
(** what is kept of an edge's node *)
Variable keep : Item -> R.

Definition perPage : Z := 100.

(** The callback of [pageNrList.map]: one progress line, one request. *)
Definition dispatch_page (owner repo authKey : string) (totalPages page : Z)
    : Js (Promise OctokitResponse) :=
  process_write progress
    ("Fetching issues/pull requests page " +:+ show page +:+ "/"
     +:+ show totalPages +:+ CR) ;;;
  octokit_issues_listForRepo prov
    {| rq_auth := authKey; rq_owner := owner; rq_repo := repo;
       rq_filter := "all"; rq_state := "all";
       rq_per_page := perPage; rq_page := page |}.

(** The callback of [responses.forEach]. *)
Definition settle_page (response : PromiseSettledResult OctokitResponse)
    (titles : list R) : Js (list R) :=
  match response with
  | fulfilled value => collect titles value
  | rejected reason => console_error "Error:" reason ;;; ret titles
  end.

(** [fetchIssueTitles(owner, repo, totalIssues)] and
    [RESTTitleFetcher.fetch(limit)] *)
Definition rest_fetch (owner repo authKey : string) (limit : Z) : Js (list R) :=
  let totalPages := Math_ceil (js_div limit perPage) in
  let pageNrList := Array_from_length totalPages (fun i => i + 1) in
  promises <- mapE pageNrList (dispatch_page owner repo authKey totalPages) ;;
  let responses := Promise_allSettled promises in
  forEach responses settle_page [].

Record LoopState := {
  itemTitles : list R;
  more : bool;            (* the variable [hasNextPage] *)
  cursor : option string;
  page : Z
}.

(** The [while (hasNextPage)] loop of the cursor fetcher; [fuel] bounds the
    number of rounds, the source has no bound. *)
Fixpoint while_hasNextPage (fuel : nat) (owner repo authKey itemType : string)
    (totalPages : Z) (st : LoopState) : Js LoopState :=
  if more st then
    match fuel with
    | O => stop OutOfFuel
    | S fuel' =>
        process_write progress
          ("Fetching " +:+ itemType +:+ " page " +:+ show (page st) +:+ "/"
           +:+ show totalPages +:+ CR) ;;;
        p <- graphql_titles prov (page st)
               {| tq_itemType := itemType; tq_owner := owner; tq_repo := repo;
                  tq_perPage := perPage; tq_cursor := cursor st;
                  tq_authorization := "token " +:+ authKey |} ;;
        response <- await p ;;
        let st1 :=
          if more st then
            {| itemTitles := itemTitles st ++ map keep (edges response);
               more := hasNextPage (pageInfo response);
               cursor := endCursor (pageInfo response);
               page := page st |}
          else st in
        while_hasNextPage fuel' owner repo authKey itemType totalPages
          {| itemTitles := itemTitles st1; more := more st1;
             cursor := cursor st1; page := page st1 + 1 |}
    end
  else ret st.

(** [fetchItemTitles(owner, repo, itemType, totalCount)] and
    [GraphQLTitleFetcher.fetch(limit, itemType)] *)
Definition cursor_fetch (fuel : nat) (owner repo authKey itemType : string)
    (totalCount : Z) : Js (list R) :=
  let totalPages := Math_ceil (js_div totalCount perPage) in
  st <- while_hasNextPage fuel owner repo authKey itemType totalPages
          {| itemTitles := []; more := true; cursor := None; page := 1 |} ;;
  ret (itemTitles st).

(** [fetchRepoStats(owner, repo)] and [ItemCountFetcher.fetch()]: the
    [catch] block logs and falls off the end of the function. *)
Definition stats_fetch (owner repo authKey : string) : Js (option RepoStats) :=
  try_catch
    (p <- graphql_stats prov
            {| sq_owner := owner; sq_repo := repo;
               sq_authorization := "token " +:+ authKey |} ;;
     response <- await p ;;
     ret (Some {| issues := issues_totalCount response;
                  pullRequests := pullRequests_totalCount response;
                  discussions := discussions_totalCount response |}))
    (fun error =>
       console_error "Error fetching repository stats:" error ;;; ret None).
End Fetchers.

Arguments itemTitles {R} _.
Arguments more {R} _.
Arguments cursor {R} _.
Arguments page {R} _.

(** [const fetchedTitles = response.value?.data.map(...);
     titles.push(...fetchedTitles)] *)
Definition collect_lines (titles : list string) (value : option OctokitResponse)
    : Js (list string) :=
  push_spread titles (option_map (fun v => map title_line (data v)) value).

(** [response.value?.data.forEach(item => items.push({...}))] *)
Definition collect_items (items : list Item) (value : option OctokitResponse)
    : Js (list Item) :=
  match value with
  | Some v => ret (items ++ map (fun item => {| number := number item; title := title item |}) (data v))
  | None => ret items
  end.

(** ** fetch-issue-titles.js *)

Module FunctionScript.
Section Script.
Variable prov : Provider.

Definition fetchRepoStats (authKey owner repo : string) : Js (option RepoStats) :=
  stats_fetch prov owner repo authKey.

Definition fetchIssueTitles (authKey owner repo : string) (totalIssues : Z)
    : Js (list string) :=
  rest_fetch prov stdout string collect_lines owner repo authKey totalIssues.

Definition fetchItemTitles (fuel : nat) (authKey owner repo itemType : string)
    (totalCount : Z) : Js (list string) :=
  cursor_fetch prov stdout string title_line fuel owner repo authKey itemType totalCount.

Definition fetchTitles (fuel : nat) (authKey owner repo : string)
    (repoStats : option RepoStats) : Js (JsObject (list string)) :=
  titles <- forEach (for_in repoStats) (fun '(itemType, count) titles =>
    if String.eqb itemType "discussions" then
      fetched <- fetchItemTitles fuel authKey owner repo itemType count ;;
      ret (obj_set titles itemType fetched)
    else ret titles) [] ;;
  totalIssues <- match repoStats with
                 | Some rs => ret (issues rs + pullRequests rs)
                 | None => throw (TypeError "Cannot read properties of undefined (reading 'issues')")
                 end ;;
  fetched <- fetchIssueTitles authKey owner repo totalIssues ;;
  ret (obj_set titles "issues" fetched).

(** [titles.<key>.length] *)
Definition length_of (titles : JsObject (list string)) (key : string) : Js Z :=
  match obj_get titles key with
  | Some l => ret (Z.of_nat (length l))
  | None => throw (TypeError "Cannot read properties of undefined (reading 'length')")
  end.

Definition main (fuel : nat) (argv : list string) : Js unit :=
  if (Z.of_nat (length argv) <? 6)%Z then
    console_log ("Usage: node " +:+ argv_at argv 1
                 +:+ " <user-or-organisation> <repo> <personal-access-token-file> <output-file>") ;;;
    process_exit 1
  else
    let owner := argv_at argv 2 in
    let repo := argv_at argv 3 in
    let keyFile := argv_at argv 4 in
    let outputFile := argv_at argv 5 in
    authKey <- readFileSync keyFile ;;
    repoStats <- fetchRepoStats authKey owner repo ;;
    titles <- fetchTitles fuel authKey owner repo repoStats ;;
    rmSync_force outputFile ;;;
    forEach (Object_entries titles) (fun '(itemType, itemTitles) (_ : unit) =>
      forEach itemTitles (fun itemTitle (_ : unit) =>
        appendFileSync outputFile (itemTitle +:+ LF)) tt) tt ;;;
    ni <- length_of titles "issues" ;;
    nd <- length_of titles "discussions" ;;
    console_log ("Written " +:+ show ni +:+ " issue/pull request and " +:+ show nd
                 +:+ " discussion titles to " +:+ outputFile).
End Script.
End FunctionScript.

(** ** The class based script that writes a file *)

Module FileScript.
Section Script.
Variable prov : Provider.

Definition ItemCountFetcher_fetch (owner repo authKey : string) : Js (option RepoStats) :=
  stats_fetch prov owner repo authKey.

Definition RESTTitleFetcher_fetch (owner repo authKey : string) (limit : Z)
    : Js (list string) :=
  rest_fetch prov stderr string collect_lines owner repo authKey limit.

Definition GraphQLTitleFetcher_fetch (fuel : nat) (owner repo authKey : string)
    (limit : Z) (itemType : string) : Js (list string) :=
  cursor_fetch prov stderr string title_line fuel owner repo authKey itemType limit.

Definition main (fuel : nat) (argv : list string) : Js unit :=
  if (Z.of_nat (length argv) <? 6)%Z then
    console_log ("Usage: node " +:+ argv_at argv 1
                 +:+ " <user-or-organisation> <repo> <personal-access-token-file> <output-file>") ;;;
    process_exit 1
  else
    let owner := argv_at argv 2 in
    let repo := argv_at argv 3 in
    let keyFile := argv_at argv 4 in
    let outputFile := argv_at argv 5 in
    authKey <- readFileSync keyFile ;;
    itemCounts <- ItemCountFetcher_fetch owner repo authKey ;;
    match itemCounts with
    | None => throw (TypeError "Cannot read properties of undefined (reading 'issues')")
    | Some counts =>
        let totalIssues := issues counts + pullRequests counts in
        fromRest <- RESTTitleFetcher_fetch owner repo authKey totalIssues ;;
        fromGraphQL <- GraphQLTitleFetcher_fetch fuel owner repo authKey
                         (discussions counts) "discussions" ;;
        let titles := fromRest ++ fromGraphQL in
        rmSync_force outputFile ;;;
        forEach titles (fun itemTitle (_ : unit) =>
          appendFileSync outputFile (itemTitle +:+ LF)) tt ;;;
        console_log ("Written " +:+ show (Z.of_nat (length titles))
                     +:+ " titles to " +:+ outputFile)
    end.
End Script.
End FileScript.

(** ** The class based script that prints to standard output *)

Module StdoutScript.
Section Script.
Variable prov : Provider.

Definition ItemCountFetcher_fetch (owner repo authKey : string) : Js (option RepoStats) :=
  stats_fetch prov owner repo authKey.

Definition RESTTitleFetcher_fetch (owner repo authKey : string) (limit : Z)
    : Js (list Item) :=
  rest_fetch prov stderr Item collect_items owner repo authKey limit.

Definition GraphQLTitleFetcher_fetch (fuel : nat) (owner repo authKey : string)
    (limit : Z) (itemType : string) : Js (list Item) :=
  cursor_fetch prov stderr Item
    (fun node => {| number := number node; title := title node |})
    fuel owner repo authKey itemType limit.

Definition main (fuel : nat) (argv : list string) : Js unit :=
  if (Z.of_nat (length argv) <? 5)%Z then
    console_log ("Usage: node " +:+ argv_at argv 1
                 +:+ " <user-or-organisation> <repo> <personal-access-token-file>") ;;;
    process_exit 1
  else
    let owner := argv_at argv 2 in
    let repo := argv_at argv 3 in
    let keyFile := argv_at argv 4 in
    let outputFile := argv_at argv 5 in
    authKey <- readFileSync keyFile ;;
    itemCounts <- ItemCountFetcher_fetch owner repo authKey ;;
    match itemCounts with
    | None => throw (TypeError "Cannot read properties of undefined (reading 'issues')")
    | Some counts =>
        let totalIssues := issues counts + pullRequests counts in
        fromRest <- RESTTitleFetcher_fetch owner repo authKey totalIssues ;;
        fromGraphQL <- GraphQLTitleFetcher_fetch fuel owner repo authKey
                         (discussions counts) "discussions" ;;
        let items := fromRest ++ fromGraphQL in
        forEach items (fun item (_ : unit) =>
          console_log (show (number item) +:+ "," +:+ title item)) tt ;;;
        console_log ("Written " +:+ show (Z.of_nat (length items))
                     +:+ " titles to " +:+ outputFile)
    end.
End Script.
End StdoutScript.

(** * Vocabulary of the statements *)

(** A computation that leaves the files alone and never ends the process. *)
Definition quiet {A} (m : Js A) : Prop :=
  forall fs,
    files_after (m fs) = fs /\
    Forall (fun e => is_file_write e = false) (events (m fs)) /\
    forall code, completion (m fs) <> Stopped (Exit code).

(** The parameters of the three kinds of request, as the fetchers build them. *)
Definition rest_request (owner repo authKey : string) (page : Z) : RestRequest :=
  {| rq_auth := authKey; rq_owner := owner; rq_repo := repo;
     rq_filter := "all"; rq_state := "all"; rq_per_page := 100; rq_page := page |}.

Definition titles_request (owner repo authKey itemType : string)
    (cursor : option string) : TitlesRequest :=
  {| tq_itemType := itemType; tq_owner := owner; tq_repo := repo;
     tq_perPage := 100; tq_cursor := cursor;
     tq_authorization := "token " +:+ authKey |}.

Definition stats_request (owner repo authKey : string) : StatsRequest :=
  {| sq_owner := owner; sq_repo := repo; sq_authorization := "token " +:+ authKey |}.

(** The page numbers [1..n]. *)
Definition pages_upto (n : nat) : list Z := map Z.of_nat (seq 1 n).

(** What a page of the REST resource contributes and what it logs. *)
Definition page_records {R} (prov : Provider) (keep : Item -> R)
    (owner repo authKey : string) (page : Z) : list R :=
  match rest_answer prov (rest_request owner repo authKey page) with
  | Resolves v => map keep (data v)
  | Rejects _ => []
  end.

Definition page_errors (prov : Provider) (owner repo authKey : string) (page : Z)
    : list Event :=
  match rest_answer prov (rest_request owner repo authKey page) with
  | Resolves _ => []
  | Rejects e => [ConsoleError "Error:" e]
  end.

Definition page_dispatch (progress : Stream) (owner repo authKey : string)
    (totalPages page : Z) : list Event :=
  [StreamWrite progress ("Fetching issues/pull requests page " +:+ show page +:+ "/"
                   +:+ show totalPages +:+ CR);
   RestCall (rest_request owner repo authKey page)].

(** The texts handed to [appendFileSync], in order. *)
Definition appended (evs : list Event) : list string :=
  omap (fun e => match e with AppendFile _ text => Some text | _ => None end) evs.

(** One line per record. *)
Definition as_lines (records : list string) : list string :=
  map (fun record => record +:+ LF) records.

(** [served prov q k c rs k' c']: from its [k]-th request on, sent with cursor
    [c], the provider answers the pages [rs], each announcing a further page;
    the next request is the [k']-th, with cursor [c']. *)
Inductive served (prov : Provider) (q : option string -> TitlesRequest)
    : Z -> option string -> list TitlesResponse -> Z -> option string -> Prop :=
| served_none k c : served prov q k c [] k c
| served_more k c resp rs k' c' :
    titles_answer prov k (q c) = Resolves resp ->
    hasNextPage (pageInfo resp) = true ->
    served prov q (k + 1) (endCursor (pageInfo resp)) rs k' c' ->
    served prov q k c (resp :: rs) k' c'.

(** The progress line of one round of the cursor fetcher. *)
Definition round_progress (progress : Stream) (itemType : string)
    (totalPages page : Z) : Event :=
  StreamWrite progress ("Fetching " +:+ itemType +:+ " page " +:+ show page +:+ "/"
                  +:+ show totalPages +:+ CR).

(** The events of the rounds answered by [rs], the first being the [k]-th
    round, sent with cursor [c]. *)
Fixpoint rounds_events (progress : Stream) (itemType : string) (totalPages : Z)
    (q : option string -> TitlesRequest) (k : Z) (c : option string)
    (rs : list TitlesResponse) : list Event :=
  match rs with
  | [] => []
  | resp :: rs' =>
      round_progress progress itemType totalPages k :: TitlesCall (q c)
      :: rounds_events progress itemType totalPages q (k + 1)
           (endCursor (pageInfo resp)) rs'
  end.

(** The state of the cursor loop after a round answered by [resp]. *)
Definition next_state {R} (keep : Item -> R) (st : LoopState R)
    (resp : TitlesResponse) : LoopState R :=
  {| itemTitles := itemTitles st ++ map keep (edges resp);
     more := hasNextPage (pageInfo resp);
     cursor := endCursor (pageInfo resp);
     page := page st + 1 |}.

(** The cursors of the requests of a fetch that starts with cursor [c] and
    is answered by the pages [rs], each announcing a further page: one request
    per page and one more. *)
Fixpoint cursors_sent (c : option string) (rs : list TitlesResponse)
    : list (option string) :=
  c :: match rs with
       | [] => []
       | resp :: rs' => cursors_sent (endCursor (pageInfo resp)) rs'
       end.

(** The records of a sequence of pages, in order. *)
Definition records_of {R} (keep : Item -> R) (rs : list TitlesResponse) : list R :=
  flat_map (fun resp => map keep (edges resp)) rs.

(** The texts put end to end. *)
Definition join (texts : list string) : string := foldr String.append "" texts.

(** The files once [path] has been removed and [texts] appended to it, one
    call each: without texts the file stays absent. *)
Definition rewritten (path : string) (texts : list string)
    (fs : gmap string string) : gmap string string :=
  match texts with
  | [] => delete path fs
  | _ :: _ => <[path := join texts]> fs
  end.

(** The files after one [appendFileSync] to [path] per text. *)
Definition append_all (path : string) (texts : list string)
    (fs : gmap string string) : gmap string string :=
  foldl (fun fs text => <[path := default "" (fs !! path) +:+ text]> fs) fs texts.

(** The counts object built from the response of the aggregate query. *)
Definition counts_of (resp : StatsResponse) : RepoStats :=
  {| issues := issues_totalCount resp;
     pullRequests := pullRequests_totalCount resp;
     discussions := discussions_totalCount resp |}.



(** No network call is made once a file has been changed. *)
Fixpoint fetches_before_writes (evs : list Event) : bool :=
  match evs with
  | [] => true
  | e :: evs' =>
      (if is_file_write e then forallb (fun e' => negb (is_network e')) evs' else true)
      && fetches_before_writes evs'
  end.

(** What a run of a file script that got past its argument check looks
    like: either it stopped during the fetch phase, the files untouched, or it
    went through the fetch phase and then rewrote the output file. *)
Inductive run_shape (keyFile out : string) (fs : gmap string string)
    : Result unit -> Prop :=
| shape_aborted c evs :
    (forall code, c <> Exit code) ->
    Forall (fun e => is_file_write e = false) evs ->
    run_shape keyFile out fs (mkResult (Stopped c) fs (ReadFile keyFile :: evs))
| shape_completed q fetching titles msg :
    Forall (fun e => is_file_write e = false) fetching ->
    run_shape keyFile out fs
      (mkResult (Normal tt) (rewritten out (as_lines titles) fs)
         (ReadFile keyFile :: StatsCall q :: fetching
          ++ RmFile out :: map (AppendFile out) (as_lines titles)
          ++ [ConsoleLog msg])).

(** The usage line of a script and the result of a run that prints it. *)
Definition usage_line (argv : list string) (arguments : string) : string :=
  "Usage: node " +:+ argv_at argv 1 +:+ arguments.

Definition usage_exit (argv : list string) (arguments : string)
    (fs : gmap string string) : Result unit :=
  mkResult (Stopped (Exit 1)) fs [ConsoleLog (usage_line argv arguments)].

(** A run that got past the argument check: the process is not exited and
    the first thing done is to read the token file. *)
Definition past_usage (keyFile : string) (r : Result unit) : Prop :=
  (forall code, completion r <> Stopped (Exit code)) /\
  exists evs, events r = ReadFile keyFile :: evs.


(** An aborted run changed no file; in any run, no fetch follows a change. *)
Definition writes_only_after_fetches (fs : gmap string string) (r : Result unit) : Prop :=
  (completion r <> Normal tt ->
   files_after r = fs /\ Forall (fun e => is_file_write e = false) (events r)) /\
  fetches_before_writes (events r) = true.

(** * A small repository to run the scripts on

    150 issues and 50 pull requests announced, served as two REST pages of
    which the second fails; three discussions served as two cursor pages. *)

Definition example_stats : StatsResponse :=
  {| issues_totalCount := 150; pullRequests_totalCount := 50;
     discussions_totalCount := 3 |}.

Definition example_page (p : Z) : OctokitResponse :=
  if (p =? 1)%Z then
    {| data := [ {| number := 1; title := "bug" |}; {| number := 2; title := "fix" |} ] |}
  else {| data := [] |}.

Definition example_discussions_1 : TitlesResponse :=
  {| edges := [ {| number := 7; title := "idea" |} ];
     pageInfo := {| endCursor := Some "c1"; hasNextPage := true |} |}.

Definition example_discussions_2 : TitlesResponse :=
  {| edges := [ {| number := 8; title := "poll" |} ];
     pageInfo := {| endCursor := None; hasNextPage := false |} |}.

Definition example_provider : Provider :=
  {| stats_answer := fun _ => Resolves example_stats;
     titles_answer := fun nth _ =>
       if (nth =? 1)%Z then Resolves example_discussions_1
       else Resolves example_discussions_2;
     rest_answer := fun q =>
       if (rq_page q =? 2)%Z then Rejects (RequestError "502")
       else Resolves (example_page (rq_page q)) |}.

(** The same repository when the second discussions page fails. *)
Definition broken_cursor_provider : Provider :=
  {| stats_answer := stats_answer example_provider;
     titles_answer := fun nth _ =>
       if (nth =? 1)%Z then Resolves example_discussions_1
       else Rejects (RequestError "timeout");
     rest_answer := rest_answer example_provider |}.

(** The same repository when the aggregate count query fails. *)
Definition broken_stats_provider : Provider :=
  {| stats_answer := fun _ => Rejects (RequestError "401");
     titles_answer := titles_answer example_provider;
     rest_answer := rest_answer example_provider |}.

Definition example_argv : list string :=
  ["node"; "fetch.js"; "octo"; "demo"; "token.txt"; "titles.txt"].

Definition example_files : gmap string string :=
  <["token.txt" := "s3cret"]> (<["titles.txt" := "old"]> ∅).

(** * Vocabulary of the further properties *)

(** Every event of the computation satisfies [P], whatever the files. *)
Definition emits_only {A} (P : Event -> Prop) (m : Js A) : Prop :=
  forall fs, Forall P (events (m fs)).

(** The request carries the token as the scripts send it: behind "token "
    in the authorization header of a GraphQL query, as it is for Octokit. *)
Definition carries_token (authKey : string) (e : Event) : bool :=
  match e with
  | StatsCall q => String.eqb (sq_authorization q) ("token " +:+ authKey)
  | TitlesCall q => String.eqb (tq_authorization q) ("token " +:+ authKey)
  | RestCall q => String.eqb (rq_auth q) authKey
  | _ => true
  end.

(** No event of the kind [late] comes after an event of the kind [early]. *)
Fixpoint none_after (late early : Event -> bool) (evs : list Event) : bool :=
  match evs with
  | [] => true
  | e :: evs' =>
      (if early e then forallb (fun e' => negb (late e')) evs' else true)
      && none_after late early evs'
  end.

(** What reaches standard output, piece by piece: [console.log] ends its
    text with a line feed, [process.stdout.write] does not. *)
Definition stdout_text (evs : list Event) : list string :=
  omap (fun e => match e with
                 | ConsoleLog text => Some (text +:+ LF)
                 | StreamWrite stdout text => Some text
                 | _ => None
                 end) evs.

(** The event puts nothing on standard output. *)
Definition silent_on_stdout (e : Event) : bool :=
  match e with
  | ConsoleLog _ | StreamWrite stdout _ => false
  | _ => true
  end.

(** What the stdout script keeps of an item: a fresh object with its number
    and its title. *)
Definition number_and_title (item : Item) : Item :=
  {| number := number item; title := title item |}.

(** The state of a cursor loop with each kept record converted. *)
Definition convert_state {R1 R2} (conv : R1 -> R2) (st : LoopState R1) : LoopState R2 :=
  {| itemTitles := map conv (itemTitles st); more := more st;
     cursor := cursor st; page := page st |}.

(** A completion with the records it returns converted. *)
Definition convert_completion {A B} (conv : A -> B) (c : Completion A) : Completion B :=
  match c with
  | Normal a => Normal (conv a)
  | Stopped stop => Stopped stop
  end.

(** The event, if it is a call to the file system, reads [keyFile] or removes
    or appends to [out], the paths being those given, letter for letter. *)
Definition file_call_on (keyFile out : string) (e : Event) : Prop :=
  match e with
  | ReadFile path => path = keyFile
  | RmFile path => path = out
  | AppendFile path _ => path = out
  | _ => True
  end.

(** The pages of the REST resource that are rejected. *)
Definition is_rejected (prov : Provider) (owner repo authKey : string) (page : Z) : bool :=
  match rest_answer prov (rest_request owner repo authKey page) with
  | Resolves _ => false
  | Rejects _ => true
  end.

(** The page numbers [k, k + 1, ..., k + n - 1]. *)
Definition pages_from (k : Z) (n : nat) : list Z :=
  map (fun i => k + Z.of_nat i) (seq 0 n).

(** A comma free string, as the decimal notation of a number is. *)
Fixpoint comma_free (s : string) : bool :=
  match s with
  | EmptyString => true
  | String a s' => negb (Ascii.eqb a (Ascii.ascii_of_nat 44)) && comma_free s'
  end.

(** The example repository when every REST page fails. *)
Definition failing_rest_provider : Provider :=
  {| stats_answer := stats_answer example_provider;
     titles_answer := titles_answer example_provider;
     rest_answer := fun _ => Rejects (RequestError "503") |}.

(** The example repository when every discussions page announces another. *)
Definition endless_provider : Provider :=
  {| stats_answer := stats_answer example_provider;
     titles_answer := fun _ _ => Resolves example_discussions_1;
     rest_answer := rest_answer example_provider |}.

(** * Properties *)

(** ** Running a computation *)

Lemma bind_normal {A B} (m : Js A) (k : A -> Js B) fs a :
  completion (m fs) = Normal a ->
  bind m k fs =
  mkResult (completion (k a (files_after (m fs))))
           (files_after (k a (files_after (m fs))))
           (events (m fs) ++ events (k a (files_after (m fs)))).
Proof. intros H. unfold bind. now rewrite H. Qed.

Lemma bind_stopped {A B} (m : Js A) (k : A -> Js B) fs c :
  completion (m fs) = Stopped c ->
  bind m k fs = mkResult (Stopped c) (files_after (m fs)) (events (m fs)).
Proof. intros H. unfold bind. now rewrite H. Qed.

Lemma result_eta {A} (r : Result A) :
  r = mkResult (completion r) (files_after r) (events r).
Proof. now destruct r. Qed.

Lemma quiet_ret {A} (a : A) : quiet (ret a).
Proof. intros fs. cbn. repeat split; [constructor | discriminate]. Qed.

Lemma quiet_stop_throw {A} e : quiet (@throw A e).
Proof. intros fs. cbn. repeat split; [constructor | discriminate]. Qed.

Lemma quiet_out_of_fuel {A} : quiet (@stop A OutOfFuel).
Proof. intros fs. cbn. repeat split; [constructor | discriminate]. Qed.

Lemma quiet_emit e : is_file_write e = false -> quiet (emit e).
Proof.
  intros He fs. cbn. repeat split; [repeat constructor; exact He | discriminate].
Qed.

Lemma quiet_bind {A B} (m : Js A) (k : A -> Js B) :
  quiet m -> (forall a, quiet (k a)) -> quiet (bind m k).
Proof.
  intros Hm Hk fs. destruct (Hm fs) as (Hf & He & Hx). unfold bind.
  destruct (completion (m fs)) as [a | c] eqn:Hc; cbn.
  - rewrite Hf. destruct (Hk a fs) as (Hf' & He' & Hx').
    repeat split; [exact Hf' | | exact Hx'].
    apply Forall_app; split; assumption.
  - repeat split; [exact Hf | exact He | ].
    intros code Heq. apply (Hx code). now inversion Heq.
Qed.

Lemma quiet_await {A} (p : Promise A) : quiet (await p).
Proof. destruct p; [apply quiet_ret | apply quiet_stop_throw]. Qed.

Lemma quiet_try_catch {A} (body : Js A) handler :
  quiet body -> (forall e, quiet (handler e)) -> quiet (try_catch body handler).
Proof.
  intros Hb Hh fs. destruct (Hb fs) as (Hf & He & Hx). unfold try_catch.
  destruct (completion (body fs)) as [a | [e | code | ]] eqn:Hc; cbn;
    try (rewrite Hc; repeat split; [exact Hf | exact He | congruence]).
  rewrite Hf. destruct (Hh e fs) as (Hf' & He' & Hx').
  repeat split; [exact Hf' | | exact Hx'].
  apply Forall_app; split; assumption.
Qed.

Lemma quiet_forEach {A S} (l : list A) (body : A -> S -> Js S) :
  (forall x s, quiet (body x s)) -> forall s, quiet (forEach l body s).
Proof.
  intros Hb. induction l as [ | x l IH]; intros s; cbn [forEach].
  - apply quiet_ret.
  - apply quiet_bind; [apply Hb | exact IH].
Qed.

Lemma quiet_mapE {A B} (l : list A) (body : A -> Js B) :
  (forall x, quiet (body x)) -> quiet (mapE l body).
Proof.
  intros Hb. induction l as [ | x l IH]; cbn [mapE].
  - apply quiet_ret.
  - apply quiet_bind; [apply Hb | ]. intros y.
    apply quiet_bind; [exact IH | ]. intros ys. apply quiet_ret.
Qed.

Create HintDb quiet.
#[export] Hint Resolve quiet_ret quiet_stop_throw quiet_out_of_fuel quiet_await : quiet.

Ltac quiet_step :=
  first
    [ apply quiet_bind; [ | intros ? ]
    | apply quiet_try_catch; [ | intros ? ]
    | apply quiet_forEach; intros ? ?
    | apply quiet_mapE; intros ?
    | apply quiet_emit; reflexivity
    | solve [auto with quiet] ].

(** ** Arithmetic of the page count *)

Lemma Math_ceil_perPage (n : Z) : Math_ceil (js_div n perPage) = - ((- n) / 100).
Proof.
  unfold Math_ceil, js_div, perPage, Qceiling, Qfloor. simpl.
  rewrite Z.mul_1_r. reflexivity.
Qed.

(** [Math.ceil(n / 100)] is the least number of pages of 100 that hold [n]. *)
Lemma Math_ceil_perPage_spec (n : Z) :
  100 * (Math_ceil (js_div n perPage) - 1) < n <= 100 * Math_ceil (js_div n perPage).
Proof.
  rewrite Math_ceil_perPage.
  pose proof (Z.div_mod (- n) 100 ltac:(lia)) as Hd.
  pose proof (Z.mod_pos_bound (- n) 100 ltac:(lia)) as Hm.
  lia.
Qed.

Lemma Array_from_length_pages (n : Z) :
  Array_from_length n (fun i => i + 1) = map Z.of_nat (seq 1 (Z.to_nat n)).
Proof.
  unfold Array_from_length. rewrite <- seq_shift, map_map.
  apply map_ext. intros i. lia.
Qed.

(** ** The paged fetcher *)

Section RestFacts.
Variable prov : Provider.
Variable progress : Stream.
Variable R : Type.
Variable collect : list R -> option OctokitResponse -> Js (list R).
Variable keep : Item -> R.
Hypothesis collect_value : forall acc v fs,
  collect acc (Some v) fs = mkResult (Normal (acc ++ map keep (data v))) fs [].
Variables owner repo authKey : string.

Lemma dispatch_all totalPages (l : list Z) fs :
  mapE l (dispatch_page prov progress owner repo authKey totalPages) fs =
  mkResult
    (Normal (map (fun p => rest_answer prov (rest_request owner repo authKey p)) l))
    fs
    (flat_map (page_dispatch progress owner repo authKey totalPages) l).
Proof.
  induction l as [ | p l IH]; [reflexivity | ].
  cbn [mapE]. rewrite (bind_normal _ _ _ (rest_answer prov (rest_request owner repo authKey p)))
    by reflexivity.
  cbn [dispatch_page process_write emit bind octokit_issues_listForRepo ret
       completion files_after events app].
  unfold bind. rewrite IH. cbn. rewrite app_nil_r. reflexivity.
Qed.

Lemma settle_all (l : list Z) acc fs :
  forEach
    (Promise_allSettled
       (map (fun p => rest_answer prov (rest_request owner repo authKey p)) l))
    (settle_page R collect) acc fs =
  mkResult
    (Normal (acc ++ flat_map (page_records prov keep owner repo authKey) l))
    fs
    (flat_map (page_errors prov owner repo authKey) l).
Proof.
  revert acc. induction l as [ | p l IH]; intros acc.
  - cbn. now rewrite app_nil_r.
  - cbn [map Promise_allSettled forEach flat_map].
    unfold page_records at 1, page_errors at 1.
    destruct (rest_answer prov (rest_request owner repo authKey p)) as [v | e].
    + unfold bind. cbn [settle_page]. rewrite collect_value.
      cbn [completion files_after events app].
      fold (@Promise_allSettled OctokitResponse).
      rewrite IH. cbn. now rewrite <- app_assoc.
    + unfold bind at 1. cbn [settle_page console_error emit bind ret
        completion files_after events app].
      fold (@Promise_allSettled OctokitResponse).
      rewrite IH. cbn. reflexivity.
Qed.

(** The whole run of the paged fetcher, for every provider. *)
Lemma rest_fetch_run (limit : Z) fs :
  let totalPages := Math_ceil (js_div limit perPage) in
  let pages := pages_upto (Z.to_nat totalPages) in
  rest_fetch prov progress R collect owner repo authKey limit fs =
  mkResult
    (Normal (flat_map (page_records prov keep owner repo authKey) pages))
    fs
    (flat_map (page_dispatch progress owner repo authKey totalPages) pages
     ++ flat_map (page_errors prov owner repo authKey) pages).
Proof.
  intros totalPages pages. unfold rest_fetch.
  fold totalPages. rewrite Array_from_length_pages.
  fold (pages_upto (Z.to_nat totalPages)). fold pages.
  unfold bind. rewrite dispatch_all. cbn [completion files_after events].
  rewrite settle_all. reflexivity.
Qed.
End RestFacts.

(** ** The cursor fetcher *)

Section CursorFacts.
Variable prov : Provider.
Variable progress : Stream.
Variable R : Type.
Variable keep : Item -> R.
Variables owner repo authKey itemType : string.

#[local] Abbreviation q := (titles_request owner repo authKey itemType).
#[local] Abbreviation loop fuel totalPages :=
  (while_hasNextPage prov progress R keep fuel owner repo authKey itemType totalPages).
#[local] Abbreviation next_state := (next_state keep).

Lemma loop_done fuel totalPages st fs :
  more st = false -> loop fuel totalPages st fs = mkResult (Normal st) fs [].
Proof. intros H. destruct fuel; cbn; now rewrite H. Qed.

Lemma loop_no_fuel totalPages st fs :
  more st = true -> loop O totalPages st fs = mkResult (Stopped OutOfFuel) fs [].
Proof. intros H. cbn. now rewrite H. Qed.

Lemma loop_step fuel totalPages st fs :
  more st = true ->
  loop (S fuel) totalPages st fs =
  match titles_answer prov (page st) (q (cursor st)) with
  | Resolves resp =>
      let r := loop fuel totalPages (next_state st resp) fs in
      mkResult (completion r) (files_after r)
        (round_progress progress itemType totalPages (page st)
         :: TitlesCall (q (cursor st)) :: events r)
  | Rejects e =>
      mkResult (Stopped (Throw e)) fs
        [round_progress progress itemType totalPages (page st);
         TitlesCall (q (cursor st))]
  end.
Proof.
  intros H. cbn [while_hasNextPage]. rewrite H.
  unfold bind, process_write, emit, graphql_titles, ret.
  cbn [completion files_after events app].
  change {| tq_itemType := itemType; tq_owner := owner; tq_repo := repo;
            tq_perPage := perPage; tq_cursor := cursor st;
            tq_authorization := "token " +:+ authKey |}
    with (q (cursor st)).
  destruct (titles_answer prov (page st) (q (cursor st))) as [resp | e]; reflexivity.
Qed.

Lemma loop_quiet fuel totalPages st : quiet (loop fuel totalPages st).
Proof.
  revert st. induction fuel as [ | fuel IH]; intros st; cbn [while_hasNextPage];
    destruct (more st); repeat quiet_step.
Qed.

Lemma cursor_fetch_quiet fuel totalCount :
  quiet (cursor_fetch prov progress R keep fuel owner repo authKey itemType totalCount).
Proof. unfold cursor_fetch. quiet_step; [apply loop_quiet | quiet_step]. Qed.

(** As long as the provider announces a further page, the loop goes on. *)
Lemma loop_served totalPages fs rs : forall st k c fuel,
  more st = true ->
  served prov q (page st) (cursor st) rs k c ->
  let st' := {| itemTitles := itemTitles st ++ records_of keep rs;
                more := true; cursor := c; page := k |} in
  let r := loop fuel totalPages st' fs in
  loop (length rs + fuel) totalPages st fs =
  mkResult (completion r) (files_after r)
    (rounds_events progress itemType totalPages q (page st) (cursor st) rs
     ++ events r).
Proof.
  induction rs as [ | resp rs IH]; intros st k c fuel Hmore Hs; inversion Hs; subst.
  - cbn. rewrite app_nil_r. destruct st as [t m cu pg]; cbn in *; subst m.
    now destruct (loop fuel totalPages _ fs).
  - cbn [length Nat.add]. rewrite loop_step by assumption.
    match goal with H : titles_answer _ _ _ = _ |- _ => rewrite H end.
    cbn zeta.
    rewrite (IH (next_state st resp) k c fuel) by (cbn; assumption).
    cbn [completion files_after events rounds_events app next_state
         itemTitles more cursor page records_of flat_map].
    now rewrite <- app_assoc.
Qed.

(** The totalCount argument reaches nothing but the progress lines. *)
Lemma loop_estimate_irrelevant fuel fs tp1 tp2 : forall st,
  completion (loop fuel tp1 st fs) = completion (loop fuel tp2 st fs) /\
  files_after (loop fuel tp1 st fs) = files_after (loop fuel tp2 st fs) /\
  List.filter (fun e => negb (is_progress e)) (events (loop fuel tp1 st fs)) =
  List.filter (fun e => negb (is_progress e)) (events (loop fuel tp2 st fs)).
Proof.
  induction fuel as [ | fuel IH]; intros st.
  - destruct (more st) eqn:Hm.
    + rewrite !loop_no_fuel by assumption. auto.
    + rewrite !loop_done by assumption. auto.
  - destruct (more st) eqn:Hm.
    + rewrite !loop_step by assumption.
      destruct (titles_answer prov (page st) (q (cursor st))) as [resp | e].
      * destruct (IH (next_state st resp)) as (Hc & Hf & He).
        cbn. rewrite He. auto.
      * cbn. auto.
    + rewrite !loop_done by assumption. auto.
Qed.

(** A loop that returns has seen the flag go down. *)
Lemma loop_returns totalPages fs fuel : forall st st',
  more st = true ->
  completion (loop fuel totalPages st fs) = Normal st' ->
  exists rs k c last,
    served prov q (page st) (cursor st) rs k c /\
    titles_answer prov k (q c) = Resolves last /\
    hasNextPage (pageInfo last) = false /\
    (length rs < fuel)%nat /\
    itemTitles st' = itemTitles st ++ records_of keep (rs ++ [last]).
Proof.
  induction fuel as [ | fuel IH]; intros st st' Hm Hc.
  - rewrite loop_no_fuel in Hc by assumption. discriminate.
  - rewrite loop_step in Hc by assumption.
    destruct (titles_answer prov (page st) (q (cursor st))) as [resp | e] eqn:Ha;
      [ | discriminate].
    destruct (hasNextPage (pageInfo resp)) eqn:Hn.
    + cbn in Hc. destruct (IH (next_state st resp) st' Hn Hc)
        as (rs & k & c & last & Hs & Hl & Hf & Hlen & Hitems).
      exists (resp :: rs), k, c, last. repeat split; try assumption; [ | cbn; lia | ].
      * econstructor; eassumption.
      * rewrite Hitems. cbn. now rewrite <- app_assoc.
    + exists [], (page st), (cursor st), resp.
      repeat split; try assumption; [constructor | cbn; lia | ].
      cbn zeta in Hc. rewrite loop_done in Hc by exact Hn.
      cbn in Hc. inversion Hc. cbn. now rewrite app_nil_r.
Qed.

(** The last round: the provider answers without announcing a page. *)
Lemma loop_last fuel totalPages st fs last :
  more st = true ->
  titles_answer prov (page st) (q (cursor st)) = Resolves last ->
  hasNextPage (pageInfo last) = false ->
  loop (S fuel) totalPages st fs =
  mkResult (Normal (next_state st last)) fs
    [round_progress progress itemType totalPages (page st);
     TitlesCall (q (cursor st))].
Proof.
  intros Hm Ha Hn. rewrite loop_step by assumption. rewrite Ha. cbn zeta.
  rewrite loop_done by exact Hn. reflexivity.
Qed.

(** A round that is rejected ends the loop. *)
Lemma loop_rejected fuel totalPages st fs cause :
  more st = true ->
  titles_answer prov (page st) (q (cursor st)) = Rejects cause ->
  loop (S fuel) totalPages st fs =
  mkResult (Stopped (Throw cause)) fs
    [round_progress progress itemType totalPages (page st);
     TitlesCall (q (cursor st))].
Proof. intros Hm Ha. rewrite loop_step by assumption. now rewrite Ha. Qed.
End CursorFacts.

(** ** The count probe and the write phase *)

Lemma stats_fetch_run prov owner repo authKey fs :
  stats_fetch prov owner repo authKey fs =
  match stats_answer prov (stats_request owner repo authKey) with
  | Resolves resp =>
      mkResult (Normal (Some (counts_of resp))) fs
        [StatsCall (stats_request owner repo authKey)]
  | Rejects e =>
      mkResult (Normal None) fs
        [StatsCall (stats_request owner repo authKey);
         ConsoleError "Error fetching repository stats:" e]
  end.
Proof.
  unfold stats_fetch, try_catch, bind, graphql_stats, emit, ret. cbn.
  fold (stats_request owner repo authKey).
  destruct (stats_answer prov (stats_request owner repo authKey)); reflexivity.
Qed.

Lemma string_app_assoc (a b c : string) : (a +:+ b) +:+ c = a +:+ (b +:+ c).
Proof.
  induction a as [ | x a IH]; [reflexivity | ].
  change (String x ((a +:+ b) +:+ c) = String x (a +:+ (b +:+ c))).
  now rewrite IH.
Qed.

Lemma string_app_nil_r (a : string) : a +:+ "" = a.
Proof.
  induction a as [ | x a IH]; [reflexivity | ].
  change (String x (a +:+ "") = String x a). now rewrite IH.
Qed.

Lemma append_each path (texts : list string) : forall (fs : gmap string string) content,
  fs !! path = Some content ->
  forEach texts (fun text (_ : unit) => appendFileSync path text) tt fs =
  mkResult (Normal tt) (<[path := content +:+ join texts]> fs)
           (map (AppendFile path) texts).
Proof.
  induction texts as [ | t texts IH]; intros fs content Hc.
  - cbn. rewrite string_app_nil_r. now rewrite insert_id.
  - cbn [forEach]. unfold bind at 1. cbn [appendFileSync completion files_after events].
    rewrite Hc. cbn [default].
    rewrite (IH _ (content +:+ t)) by apply lookup_insert_eq.
    cbn. rewrite insert_insert_eq, string_app_assoc. reflexivity.
Qed.

(** One [appendFileSync] per text, on a file that [rmSync] has just removed. *)
Lemma append_after_rm path (texts : list string) (fs : gmap string string) :
  forEach texts (fun text (_ : unit) => appendFileSync path text) tt (delete path fs) =
  mkResult (Normal tt) (rewritten path texts fs) (map (AppendFile path) texts).
Proof.
  destruct texts as [ | t texts]; [reflexivity | ].
  cbn [forEach]. unfold bind.
  cbn [appendFileSync completion files_after events].
  rewrite (append_each path texts _ (default "" (delete path fs !! path) +:+ t))
    by apply lookup_insert_eq.
  rewrite lookup_delete_eq.
  cbn [default completion files_after events app map rewritten join foldr].
  rewrite insert_insert_eq, insert_delete_eq. reflexivity.
Qed.

Lemma forEach_lines path (titles : list string) fs :
  forEach titles (fun itemTitle (_ : unit) => appendFileSync path (itemTitle +:+ LF)) tt fs =
  forEach (as_lines titles) (fun text (_ : unit) => appendFileSync path text) tt fs.
Proof.
  revert fs. induction titles as [ | t titles IH]; intros fs; [reflexivity | ].
  cbn [as_lines map forEach]. unfold bind. fold (as_lines titles).
  cbn [appendFileSync completion files_after events]. now rewrite IH.
Qed.

(** ** Sequencing *)

Lemma bind_run {A B} (m : Js A) (k : A -> Js B) fs a fs' evs :
  m fs = mkResult (Normal a) fs' evs ->
  bind m k fs =
  mkResult (completion (k a fs')) (files_after (k a fs')) (evs ++ events (k a fs')).
Proof. intros H. unfold bind. now rewrite H. Qed.

Lemma bind_run_stopped {A B} (m : Js A) (k : A -> Js B) fs c fs' evs :
  m fs = mkResult (Stopped c) fs' evs ->
  bind m k fs = mkResult (Stopped c) fs' evs.
Proof. intros H. unfold bind. now rewrite H. Qed.

Lemma quiet_run {A} (m : Js A) fs c :
  quiet m -> completion (m fs) = c -> m fs = mkResult c fs (events (m fs)).
Proof.
  intros Hq Hc. destruct (Hq fs) as (Hf & _ & _).
  rewrite (result_eta (m fs)) at 1. now rewrite Hf, Hc.
Qed.

Lemma quiet_events {A} (m : Js A) fs :
  quiet m -> Forall (fun e => is_file_write e = false) (events (m fs)).
Proof. intros Hq. apply (Hq fs). Qed.

Lemma quiet_no_exit {A} (m : Js A) fs code :
  quiet m -> completion (m fs) <> Stopped (Exit code).
Proof. intros Hq. apply (Hq fs). Qed.

Lemma collect_lines_quiet acc value : quiet (collect_lines acc value).
Proof. destruct value; cbn; auto with quiet. Qed.

Lemma collect_items_quiet acc value : quiet (collect_items acc value).
Proof. destruct value; cbn; auto with quiet. Qed.

Lemma rest_fetch_quiet prov progress R collect owner repo authKey limit :
  (forall acc value, quiet (collect acc value)) ->
  quiet (rest_fetch prov progress R collect owner repo authKey limit).
Proof.
  intros Hc. unfold rest_fetch. quiet_step.
  - quiet_step. unfold dispatch_page, process_write, octokit_issues_listForRepo.
    repeat quiet_step.
  - quiet_step. unfold settle_page, console_error.
    match goal with |- quiet (match ?x with _ => _ end) => destruct x end;
      [apply Hc | repeat quiet_step].
Qed.

Lemma stats_fetch_quiet prov owner repo authKey :
  quiet (stats_fetch prov owner repo authKey).
Proof.
  unfold stats_fetch, graphql_stats, console_error. repeat quiet_step.
Qed.

Lemma no_network_forallb (l : list Event) :
  Forall (fun e => is_network e = false) l ->
  forallb (fun e => negb (is_network e)) l = true.
Proof.
  induction 1 as [ | e l He _ IH]; [reflexivity | ].
  cbn. now rewrite He, IH.
Qed.

(** The paged fetcher always returns. *)
Lemma rest_lines_normal prov progress owner repo authKey limit fs :
  exists rest,
    completion (rest_fetch prov progress string collect_lines owner repo authKey limit fs)
    = Normal rest.
Proof.
  rewrite (rest_fetch_run prov progress string collect_lines title_line
             ltac:(reflexivity)).
  eexists. reflexivity.
Qed.

(** Events of the fetch phase followed by events of the write phase. *)
Lemma fetches_before_writes_app (pre post : list Event) :
  Forall (fun e => is_file_write e = false) pre ->
  Forall (fun e => is_network e = false) post ->
  fetches_before_writes (pre ++ post) = true.
Proof.
  intros Hpre Hpost. induction Hpre as [ | e pre He _ IH]; cbn.
  - induction Hpost as [ | e post He Hpost IH]; [reflexivity | ].
    cbn. rewrite IH, andb_true_r. destruct (is_file_write e); [ | reflexivity].
    now apply no_network_forallb.
  - now rewrite He, IH.
Qed.

Lemma appended_map path (texts : list string) :
  appended (map (AppendFile path) texts) = texts.
Proof.
  unfold appended. induction texts as [ | t texts IH]; cbn; [reflexivity | now f_equal].
Qed.

Lemma appended_app (l1 l2 : list Event) :
  appended (l1 ++ l2) = appended l1 ++ appended l2.
Proof. unfold appended. apply omap_app. Qed.

Lemma appended_quiet (evs : list Event) :
  Forall (fun e => is_file_write e = false) evs -> appended evs = [].
Proof.
  unfold appended. induction 1 as [ | e evs He _ IH]; [reflexivity | ].
  cbn. rewrite IH. now destruct e.
Qed.

Lemma append_all_run path (texts : list string) : forall fs,
  forEach texts (fun text (_ : unit) => appendFileSync path text) tt fs =
  mkResult (Normal tt) (append_all path texts fs) (map (AppendFile path) texts).
Proof.
  induction texts as [ | t texts IH]; intros fs; [reflexivity | ].
  cbn [forEach]. unfold bind. cbn [appendFileSync completion files_after events].
  rewrite IH. reflexivity.
Qed.

Lemma append_all_rewritten path (texts : list string) fs :
  append_all path texts (delete path fs) = rewritten path texts fs.
Proof.
  pose proof (append_after_rm path texts fs) as H.
  rewrite append_all_run in H. now inversion H.
Qed.

(** The nested loops of the function script append the values of the titles
    object one after the other. *)
Lemma append_entries_run path (entries : JsObject (list string)) : forall fs,
  forEach (Object_entries entries)
    (fun '(itemType, itemTitles) (_ : unit) =>
       forEach itemTitles
         (fun itemTitle (_ : unit) => appendFileSync path (itemTitle +:+ LF)) tt)
    tt fs =
  mkResult (Normal tt)
    (append_all path (as_lines (flat_map snd entries)) fs)
    (map (AppendFile path) (as_lines (flat_map snd entries))).
Proof.
  unfold Object_entries.
  induction entries as [ | [itemType itemTitles] entries IH]; intros fs; [reflexivity | ].
  cbn [forEach flat_map snd]. unfold bind.
  rewrite forEach_lines, append_all_run. cbn [completion files_after events].
  rewrite IH. cbn [completion files_after events].
  unfold as_lines, append_all. now rewrite !map_app, foldl_app.
Qed.

(** The write phase of the file scripts, followed by the rest of the script. *)
Lemma write_then {B} path (titles : list string) (k : Js B) fs :
  (rmSync_force path ;;;
   forEach titles (fun itemTitle (_ : unit) => appendFileSync path (itemTitle +:+ LF)) tt ;;;
   k) fs =
  let fs' := rewritten path (as_lines titles) fs in
  mkResult (completion (k fs')) (files_after (k fs'))
    (RmFile path :: map (AppendFile path) (as_lines titles) ++ events (k fs')).
Proof.
  rewrite (bind_run _ _ fs tt (delete path fs) [RmFile path]) by reflexivity.
  rewrite (bind_run _ _ (delete path fs) tt (rewritten path (as_lines titles) fs)
             (map (AppendFile path) (as_lines titles)))
    by (rewrite forEach_lines; apply append_after_rm).
  reflexivity.
Qed.

Lemma bind_ret_l {A B} (a : A) (k : A -> Js B) fs : bind (ret a) k fs = k a fs.
Proof. unfold bind, ret. cbn. now destruct (k a fs). Qed.

Lemma bind_assoc {A B C} (m : Js A) (k : A -> Js B) (h : B -> Js C) fs :
  bind (bind m k) h fs = bind m (fun a => bind (k a) h) fs.
Proof.
  unfold bind. destruct (m fs) as [[a | c] f e]; cbn; [ | reflexivity].
  destruct (k a f) as [[b | c] f' e']; cbn; [ | reflexivity].
  now rewrite app_assoc.
Qed.

Ltac js_norm := repeat (first [rewrite bind_assoc | rewrite bind_ret_l]; cbn beta).

Ltac run_bind a evs :=
  match goal with
  | |- context [bind ?m ?k ?fs] =>
      rewrite (bind_run m k fs a fs evs); [cbn beta | ]
  end.

(** ** The runs of the class based file script *)

Section FileScriptRuns.
Variable prov : Provider.
Variables (fuel : nat) (argv : list string) (fs : gmap string string).

#[local] Abbreviation owner := (argv_at argv 2).
#[local] Abbreviation repo := (argv_at argv 3).
#[local] Abbreviation keyFile := (argv_at argv 4).
#[local] Abbreviation outputFile := (argv_at argv 5).
#[local] Abbreviation restf authKey counts :=
  (FileScript.RESTTitleFetcher_fetch prov owner repo authKey
     (issues counts + pullRequests counts)).
#[local] Abbreviation cursorf authKey counts :=
  (FileScript.GraphQLTitleFetcher_fetch prov fuel owner repo authKey
     (discussions counts) "discussions").

Lemma FileScript_usage :
  (length argv < 6)%nat ->
  FileScript.main prov fuel argv fs =
  mkResult (Stopped (Exit 1)) fs
    [ConsoleLog ("Usage: node " +:+ argv_at argv 1
       +:+ " <user-or-organisation> <repo> <personal-access-token-file> <output-file>")].
Proof.
  intros H. unfold FileScript.main.
  destruct (Z.ltb_spec (Z.of_nat (length argv)) 6); [reflexivity | lia].
Qed.

Lemma FileScript_no_key :
  (6 <= length argv)%nat ->
  fs !! keyFile = None ->
  FileScript.main prov fuel argv fs =
  mkResult (Stopped (Throw (SystemError "ENOENT"))) fs [ReadFile keyFile].
Proof.
  intros H Hk. unfold FileScript.main.
  destruct (Z.ltb_spec (Z.of_nat (length argv)) 6); [lia | ].
  apply bind_run_stopped. unfold readFileSync. now rewrite Hk.
Qed.

Lemma FileScript_no_counts authKey reason :
  (6 <= length argv)%nat ->
  fs !! keyFile = Some authKey ->
  stats_answer prov (stats_request owner repo authKey) = Rejects reason ->
  FileScript.main prov fuel argv fs =
  mkResult
    (Stopped (Throw (TypeError "Cannot read properties of undefined (reading 'issues')")))
    fs
    [ReadFile keyFile; StatsCall (stats_request owner repo authKey);
     ConsoleError "Error fetching repository stats:" reason].
Proof.
  intros H Hk Hs. unfold FileScript.main.
  destruct (Z.ltb_spec (Z.of_nat (length argv)) 6); [lia | ].
  run_bind authKey [ReadFile keyFile]; [ | unfold readFileSync; now rewrite Hk].
  run_bind (@None RepoStats)
    [StatsCall (stats_request owner repo authKey);
     ConsoleError "Error fetching repository stats:" reason];
    [ | unfold FileScript.ItemCountFetcher_fetch; now rewrite stats_fetch_run, Hs].
  reflexivity.
Qed.

Lemma FileScript_fetch_stopped authKey resp c :
  (6 <= length argv)%nat ->
  fs !! keyFile = Some authKey ->
  stats_answer prov (stats_request owner repo authKey) = Resolves resp ->
  completion (cursorf authKey (counts_of resp) fs) = Stopped c ->
  FileScript.main prov fuel argv fs =
  mkResult (Stopped c) fs
    (ReadFile keyFile :: StatsCall (stats_request owner repo authKey)
     :: events (restf authKey (counts_of resp) fs)
     ++ events (cursorf authKey (counts_of resp) fs)).
Proof.
  intros H Hk Hs Hc. unfold FileScript.main.
  destruct (Z.ltb_spec (Z.of_nat (length argv)) 6); [lia | ].
  run_bind authKey [ReadFile keyFile]; [ | unfold readFileSync; now rewrite Hk].
  run_bind (Some (counts_of resp)) [StatsCall (stats_request owner repo authKey)];
    [ | unfold FileScript.ItemCountFetcher_fetch; now rewrite stats_fetch_run, Hs].
  cbn iota.
  destruct (rest_lines_normal prov stderr owner repo authKey
              (issues (counts_of resp) + pullRequests (counts_of resp)) fs)
    as [rest Hr].
  rewrite (bind_run _ _ fs rest fs (events (restf authKey (counts_of resp) fs)))
    by (apply quiet_run; [apply rest_fetch_quiet, collect_lines_quiet | exact Hr]).
  cbn beta.
  rewrite (bind_run_stopped _ _ fs c fs (events (cursorf authKey (counts_of resp) fs)))
    by (apply quiet_run; [apply cursor_fetch_quiet | exact Hc]).
  reflexivity.
Qed.

Lemma FileScript_completes authKey resp rest disc :
  (6 <= length argv)%nat ->
  fs !! keyFile = Some authKey ->
  stats_answer prov (stats_request owner repo authKey) = Resolves resp ->
  completion (restf authKey (counts_of resp) fs) = Normal rest ->
  completion (cursorf authKey (counts_of resp) fs) = Normal disc ->
  FileScript.main prov fuel argv fs =
  mkResult (Normal tt) (rewritten outputFile (as_lines (rest ++ disc)) fs)
    (ReadFile keyFile :: StatsCall (stats_request owner repo authKey)
     :: events (restf authKey (counts_of resp) fs)
     ++ events (cursorf authKey (counts_of resp) fs)
     ++ RmFile outputFile :: map (AppendFile outputFile) (as_lines (rest ++ disc))
     ++ [ConsoleLog ("Written " +:+ show (Z.of_nat (length (rest ++ disc)))
                     +:+ " titles to " +:+ outputFile)]).
Proof.
  intros H Hk Hs Hr Hc. unfold FileScript.main.
  destruct (Z.ltb_spec (Z.of_nat (length argv)) 6); [lia | ].
  run_bind authKey [ReadFile keyFile]; [ | unfold readFileSync; now rewrite Hk].
  run_bind (Some (counts_of resp)) [StatsCall (stats_request owner repo authKey)];
    [ | unfold FileScript.ItemCountFetcher_fetch; now rewrite stats_fetch_run, Hs].
  cbn iota.
  rewrite (bind_run _ _ fs rest fs (events (restf authKey (counts_of resp) fs)))
    by (apply quiet_run; [apply rest_fetch_quiet, collect_lines_quiet | exact Hr]).
  cbn beta.
  rewrite (bind_run _ _ fs disc fs (events (cursorf authKey (counts_of resp) fs)))
    by (apply quiet_run; [apply cursor_fetch_quiet | exact Hc]).
  cbn beta zeta. rewrite write_then. reflexivity.
Qed.
End FileScriptRuns.

(** ** The runs of the function script *)

Lemma write_entries_then {B} path (titles : JsObject (list string)) (k : Js B) fs :
  (rmSync_force path ;;;
   forEach (Object_entries titles)
     (fun '(itemType, itemTitles) (_ : unit) =>
        forEach itemTitles
          (fun itemTitle (_ : unit) => appendFileSync path (itemTitle +:+ LF)) tt)
     tt ;;;
   k) fs =
  let texts := as_lines (flat_map snd titles) in
  let fs' := rewritten path texts fs in
  mkResult (completion (k fs')) (files_after (k fs'))
    (RmFile path :: map (AppendFile path) texts ++ events (k fs')).
Proof.
  rewrite (bind_run _ _ fs tt (delete path fs) [RmFile path]) by reflexivity.
  rewrite (bind_run _ _ (delete path fs) tt
             (rewritten path (as_lines (flat_map snd titles)) fs)
             (map (AppendFile path) (as_lines (flat_map snd titles))))
    by (rewrite append_entries_run, append_all_rewritten; reflexivity).
  reflexivity.
Qed.

Section FunctionScriptRuns.
Variable prov : Provider.
Variables (fuel : nat) (argv : list string) (fs : gmap string string).

#[local] Abbreviation owner := (argv_at argv 2).
#[local] Abbreviation repo := (argv_at argv 3).
#[local] Abbreviation keyFile := (argv_at argv 4).
#[local] Abbreviation outputFile := (argv_at argv 5).
#[local] Abbreviation restf authKey counts :=
  (FunctionScript.fetchIssueTitles prov authKey owner repo
     (issues counts + pullRequests counts)).
#[local] Abbreviation cursorf authKey counts :=
  (FunctionScript.fetchItemTitles prov fuel authKey owner repo "discussions"
     (discussions counts)).

Lemma fetchTitles_undefined authKey :
  FunctionScript.fetchTitles prov fuel authKey owner repo None fs =
  mkResult
    (Stopped (Throw (TypeError "Cannot read properties of undefined (reading 'issues')")))
    fs [].
Proof. reflexivity. Qed.

Lemma fetchTitles_stopped authKey counts c :
  completion (cursorf authKey counts fs) = Stopped c ->
  FunctionScript.fetchTitles prov fuel authKey owner repo (Some counts) fs =
  mkResult (Stopped c) fs (events (cursorf authKey counts fs)).
Proof.
  intros Hc. unfold FunctionScript.fetchTitles. cbn [for_in forEach].
  change (String.eqb "issues" "discussions") with false.
  change (String.eqb "pullRequests" "discussions") with false.
  change (String.eqb "discussions" "discussions") with true.
  cbn iota. js_norm.
  rewrite (bind_run_stopped _ _ fs c fs (events (cursorf authKey counts fs)))
    by (apply quiet_run; [apply cursor_fetch_quiet | exact Hc]).
  reflexivity.
Qed.

Lemma fetchTitles_completes authKey counts rest disc :
  completion (cursorf authKey counts fs) = Normal disc ->
  completion (restf authKey counts fs) = Normal rest ->
  FunctionScript.fetchTitles prov fuel authKey owner repo (Some counts) fs =
  mkResult (Normal [("discussions", disc); ("issues", rest)]) fs
    (events (cursorf authKey counts fs) ++ events (restf authKey counts fs)).
Proof.
  intros Hc Hr. unfold FunctionScript.fetchTitles. cbn [for_in forEach].
  change (String.eqb "issues" "discussions") with false.
  change (String.eqb "pullRequests" "discussions") with false.
  change (String.eqb "discussions" "discussions") with true.
  cbn iota. js_norm.
  rewrite (bind_run _ _ fs disc fs (events (cursorf authKey counts fs)))
    by (apply quiet_run; [apply cursor_fetch_quiet | exact Hc]).
  cbn beta. js_norm.
  rewrite (bind_run _ _ fs rest fs (events (restf authKey counts fs)))
    by (apply quiet_run; [apply rest_fetch_quiet, collect_lines_quiet | exact Hr]).
  cbn [ret completion files_after events obj_set].
  change (String.eqb "discussions" "issues") with false. cbn iota.
  now rewrite app_nil_r.
Qed.

Lemma FunctionScript_usage :
  (length argv < 6)%nat ->
  FunctionScript.main prov fuel argv fs =
  mkResult (Stopped (Exit 1)) fs
    [ConsoleLog ("Usage: node " +:+ argv_at argv 1
       +:+ " <user-or-organisation> <repo> <personal-access-token-file> <output-file>")].
Proof.
  intros H. unfold FunctionScript.main.
  destruct (Z.ltb_spec (Z.of_nat (length argv)) 6); [reflexivity | lia].
Qed.

Lemma FunctionScript_no_key :
  (6 <= length argv)%nat ->
  fs !! keyFile = None ->
  FunctionScript.main prov fuel argv fs =
  mkResult (Stopped (Throw (SystemError "ENOENT"))) fs [ReadFile keyFile].
Proof.
  intros H Hk. unfold FunctionScript.main.
  destruct (Z.ltb_spec (Z.of_nat (length argv)) 6); [lia | ].
  apply bind_run_stopped. unfold readFileSync. now rewrite Hk.
Qed.

Lemma FunctionScript_no_counts authKey reason :
  (6 <= length argv)%nat ->
  fs !! keyFile = Some authKey ->
  stats_answer prov (stats_request owner repo authKey) = Rejects reason ->
  FunctionScript.main prov fuel argv fs =
  mkResult
    (Stopped (Throw (TypeError "Cannot read properties of undefined (reading 'issues')")))
    fs
    [ReadFile keyFile; StatsCall (stats_request owner repo authKey);
     ConsoleError "Error fetching repository stats:" reason].
Proof.
  intros H Hk Hs. unfold FunctionScript.main.
  destruct (Z.ltb_spec (Z.of_nat (length argv)) 6); [lia | ].
  run_bind authKey [ReadFile keyFile]; [ | unfold readFileSync; now rewrite Hk].
  run_bind (@None RepoStats)
    [StatsCall (stats_request owner repo authKey);
     ConsoleError "Error fetching repository stats:" reason];
    [ | unfold FunctionScript.fetchRepoStats; now rewrite stats_fetch_run, Hs].
  rewrite (bind_run_stopped _ _ fs _ fs [] (fetchTitles_undefined authKey)).
  reflexivity.
Qed.

Lemma FunctionScript_fetch_stopped authKey resp c :
  (6 <= length argv)%nat ->
  fs !! keyFile = Some authKey ->
  stats_answer prov (stats_request owner repo authKey) = Resolves resp ->
  completion (cursorf authKey (counts_of resp) fs) = Stopped c ->
  FunctionScript.main prov fuel argv fs =
  mkResult (Stopped c) fs
    (ReadFile keyFile :: StatsCall (stats_request owner repo authKey)
     :: events (cursorf authKey (counts_of resp) fs)).
Proof.
  intros H Hk Hs Hc. unfold FunctionScript.main.
  destruct (Z.ltb_spec (Z.of_nat (length argv)) 6); [lia | ].
  run_bind authKey [ReadFile keyFile]; [ | unfold readFileSync; now rewrite Hk].
  run_bind (Some (counts_of resp)) [StatsCall (stats_request owner repo authKey)];
    [ | unfold FunctionScript.fetchRepoStats; now rewrite stats_fetch_run, Hs].
  rewrite (bind_run_stopped _ _ fs _ fs _ (fetchTitles_stopped authKey _ c Hc)).
  reflexivity.
Qed.

Lemma FunctionScript_completes authKey resp rest disc :
  (6 <= length argv)%nat ->
  fs !! keyFile = Some authKey ->
  stats_answer prov (stats_request owner repo authKey) = Resolves resp ->
  completion (restf authKey (counts_of resp) fs) = Normal rest ->
  completion (cursorf authKey (counts_of resp) fs) = Normal disc ->
  FunctionScript.main prov fuel argv fs =
  mkResult (Normal tt) (rewritten outputFile (as_lines (disc ++ rest)) fs)
    (ReadFile keyFile :: StatsCall (stats_request owner repo authKey)
     :: events (cursorf authKey (counts_of resp) fs)
     ++ events (restf authKey (counts_of resp) fs)
     ++ RmFile outputFile :: map (AppendFile outputFile) (as_lines (disc ++ rest))
     ++ [ConsoleLog ("Written " +:+ show (Z.of_nat (length rest))
                     +:+ " issue/pull request and " +:+ show (Z.of_nat (length disc))
                     +:+ " discussion titles to " +:+ outputFile)]).
Proof.
  intros H Hk Hs Hr Hc. unfold FunctionScript.main.
  destruct (Z.ltb_spec (Z.of_nat (length argv)) 6); [lia | ].
  run_bind authKey [ReadFile keyFile]; [ | unfold readFileSync; now rewrite Hk].
  run_bind (Some (counts_of resp)) [StatsCall (stats_request owner repo authKey)];
    [ | unfold FunctionScript.fetchRepoStats; now rewrite stats_fetch_run, Hs].
  rewrite (bind_run _ _ fs _ fs _ (fetchTitles_completes authKey _ rest disc Hc Hr)).
  cbn beta. rewrite write_entries_then. cbn zeta.
  cbn [flat_map snd]. rewrite app_nil_r.
  unfold FunctionScript.length_of. cbn [obj_get].
  change (String.eqb "discussions" "issues") with false.
  change (String.eqb "issues" "issues") with true.
  change (String.eqb "discussions" "discussions") with true.
  cbn iota. js_norm. cbn [console_log emit completion files_after events].
  rewrite <- !app_assoc. reflexivity.
Qed.
End FunctionScriptRuns.

(** ** The runs of a file script, case by case *)

Ltac file_cases prov fuel argv fs :=
  destruct (Nat.lt_ge_cases (length argv) 6) as [Hfew | Hargs];
  [ pose proof (FileScript_usage prov fuel argv fs Hfew) as Hrun
  | destruct (fs !! argv_at argv 4) as [authKey | ] eqn:Hkey;
    [ destruct (stats_answer prov
                  (stats_request (argv_at argv 2) (argv_at argv 3) authKey))
        as [resp | cause] eqn:Hstats;
      [ destruct (rest_lines_normal prov stderr (argv_at argv 2) (argv_at argv 3) authKey
                    (issues (counts_of resp) + pullRequests (counts_of resp)) fs)
          as [rest Hrest];
        destruct (completion
                    (FileScript.GraphQLTitleFetcher_fetch prov fuel (argv_at argv 2)
                       (argv_at argv 3) authKey (discussions (counts_of resp))
                       "discussions" fs)) as [disc | c] eqn:Hcursor;
        [ pose proof (FileScript_completes prov fuel argv fs authKey resp rest disc
                        Hargs Hkey Hstats Hrest Hcursor) as Hrun
        | pose proof (FileScript_fetch_stopped prov fuel argv fs authKey resp c
                        Hargs Hkey Hstats Hcursor) as Hrun ]
      | pose proof (FileScript_no_counts prov fuel argv fs authKey cause
                      Hargs Hkey Hstats) as Hrun ]
    | pose proof (FileScript_no_key prov fuel argv fs Hargs Hkey) as Hrun ] ].

Ltac function_cases prov fuel argv fs :=
  destruct (Nat.lt_ge_cases (length argv) 6) as [Hfew | Hargs];
  [ pose proof (FunctionScript_usage prov fuel argv fs Hfew) as Hrun
  | destruct (fs !! argv_at argv 4) as [authKey | ] eqn:Hkey;
    [ destruct (stats_answer prov
                  (stats_request (argv_at argv 2) (argv_at argv 3) authKey))
        as [resp | cause] eqn:Hstats;
      [ destruct (rest_lines_normal prov stdout (argv_at argv 2) (argv_at argv 3) authKey
                    (issues (counts_of resp) + pullRequests (counts_of resp)) fs)
          as [rest Hrest];
        destruct (completion
                    (FunctionScript.fetchItemTitles prov fuel authKey (argv_at argv 2)
                       (argv_at argv 3) "discussions" (discussions (counts_of resp)) fs))
          as [disc | c] eqn:Hcursor;
        [ pose proof (FunctionScript_completes prov fuel argv fs authKey resp rest disc
                        Hargs Hkey Hstats Hrest Hcursor) as Hrun
        | pose proof (FunctionScript_fetch_stopped prov fuel argv fs authKey resp c
                        Hargs Hkey Hstats Hcursor) as Hrun ]
      | pose proof (FunctionScript_no_counts prov fuel argv fs authKey cause
                      Hargs Hkey Hstats) as Hrun ]
    | pose proof (FunctionScript_no_key prov fuel argv fs Hargs Hkey) as Hrun ] ].

(** * The claims *)

(** ** Paged fetcher *)

Lemma pages_upto_range (n : nat) (p : Z) :
  p ∈ pages_upto n <-> 1 <= p <= Z.of_nat n.
Proof.
  unfold pages_upto. change (map Z.of_nat (seq 1 n)) with (Z.of_nat <$> seq 1 n).
  rewrite list_elem_of_fmap. split.
  - intros (i & -> & Hi). apply elem_of_seq in Hi. lia.
  - intros H. exists (Z.to_nat p). split; [lia | ]. apply elem_of_seq. lia.
Qed.

Lemma pages_upto_NoDup (n : nat) : NoDup (pages_upto n).
Proof.
  unfold pages_upto. change (map Z.of_nat (seq 1 n)) with (Z.of_nat <$> seq 1 n).
  apply NoDup_fmap_2; [apply _ | apply NoDup_seq].
Qed.

Lemma flat_map_skip {A} (f g : Z -> list A) (k : Z) (l : list Z) :
  f k = [] ->
  (forall p, p ∈ l -> p <> k -> f p = g p) ->
  flat_map f l = flat_map g (List.filter (fun p => negb (p =? k)%Z) l).
Proof.
  intros Hk. induction l as [ | p l IH]; intros Hl; [reflexivity | ].
  cbn [flat_map List.filter].
  rewrite IH by (intros p' Hp'; apply Hl; now right).
  destruct (Z.eqb_spec p k) as [-> | Hne]; cbn [negb flat_map].
  - now rewrite Hk.
  - rewrite (Hl p); [reflexivity | now left | assumption].
Qed.

Lemma flat_map_nil {A B} (f : A -> list B) (l : list A) :
  (forall p, p ∈ l -> f p = []) -> flat_map f l = [].
Proof.
  induction l as [ | p l IH]; intros Hl; [reflexivity | ].
  cbn. rewrite (Hl p) by now left. apply IH. intros p' Hp'. apply Hl. now right.
Qed.

Lemma flat_map_only {A} (f : Z -> list A) (k : Z) (l : list Z) :
  NoDup l -> k ∈ l ->
  (forall p, p ∈ l -> p <> k -> f p = []) ->
  flat_map f l = f k.
Proof.
  induction 1 as [ | p l Hp Hnd IH]; intros Hin Hl.
  - now apply elem_of_nil in Hin.
  - cbn [flat_map]. apply elem_of_cons in Hin as [<- | Hin].
    + rewrite flat_map_nil, app_nil_r; [reflexivity | ].
      intros p' Hp'. apply Hl; [now right | ]. intros ->. contradiction.
    + rewrite (Hl p), IH; [reflexivity | assumption | | now left | ].
      * intros p' Hp'. apply Hl. now right.
      * intros ->. contradiction.
Qed.

Lemma filter_out_one (k : Z) (l : list Z) :
  NoDup l -> k ∈ l ->
  S (length (List.filter (fun p => negb (p =? k)%Z) l)) = length l.
Proof.
  induction 1 as [ | p l Hp Hnd IH]; intros Hin.
  - now apply elem_of_nil in Hin.
  - cbn [List.filter]. destruct (Z.eqb_spec p k) as [-> | Hne]; cbn [negb length].
    + f_equal. clear IH Hin. induction l as [ | p' l IH]; [reflexivity | ].
      cbn [List.filter]. apply not_elem_of_cons in Hp as [Hne Hp].
      apply NoDup_cons in Hnd as [_ Hnd].
      destruct (Z.eqb_spec p' k); [congruence | ]. cbn. f_equal. now apply IH.
    + f_equal. apply IH. apply elem_of_cons in Hin as [-> | Hin]; [contradiction | assumption].
Qed.

Lemma rest_calls_of_dispatch progress owner repo authKey totalPages (l : list Z) :
  List.filter is_network (flat_map (page_dispatch progress owner repo authKey totalPages) l)
  = map (fun p => RestCall (rest_request owner repo authKey p)) l.
Proof. induction l as [ | p l IH]; cbn; [reflexivity | now rewrite IH]. Qed.

Lemma no_error_in_dispatch progress owner repo authKey totalPages (l : list Z) :
  List.filter is_console_error
    (flat_map (page_dispatch progress owner repo authKey totalPages) l) = [].
Proof. induction l as [ | p l IH]; cbn; [reflexivity | exact IH]. Qed.

Lemma rest_calls_of_errors prov owner repo authKey (l : list Z) :
  List.filter is_network (flat_map (page_errors prov owner repo authKey) l) = [].
Proof.
  induction l as [ | p l IH]; [reflexivity | ].
  cbn [flat_map]. rewrite List.filter_app, IH, app_nil_r.
  unfold page_errors. now destruct (rest_answer _ _).
Qed.

Lemma errors_of_errors prov owner repo authKey (l : list Z) :
  List.filter is_console_error (flat_map (page_errors prov owner repo authKey) l)
  = flat_map (page_errors prov owner repo authKey) l.
Proof.
  induction l as [ | p l IH]; [reflexivity | ].
  cbn [flat_map]. rewrite List.filter_app, IH. f_equal.
  unfold page_errors. now destruct (rest_answer _ _).
Qed.

(** C6: for every count [limit >= 0] the paged fetcher sends exactly
    ceil(limit / 100) requests, for the pages 1, 2, ..., each asking for 100
    items; with [limit = 0] it sends nothing and returns the empty sequence. *)
Theorem page_requests_cover_count
    (prov : Provider) (progress : Stream) (owner repo authKey : string)
    (limit : Z) (fs : gmap string string) :
  0 <= limit ->
  let r := rest_fetch prov progress string collect_lines owner repo authKey limit fs in
  exists totalPages : nat,
    100 * (Z.of_nat totalPages - 1) < limit <= 100 * Z.of_nat totalPages /\
    List.filter is_network (events r) =
      map (fun p => RestCall {| rq_auth := authKey; rq_owner := owner; rq_repo := repo;
                                rq_filter := "all"; rq_state := "all";
                                rq_per_page := 100; rq_page := p |})
          (pages_upto totalPages) /\
    (limit = 0 -> events r = [] /\ completion r = Normal []).
Proof.
  intros Hlimit r. subst r.
  rewrite (rest_fetch_run prov progress string collect_lines title_line ltac:(reflexivity)).
  cbn zeta. cbn [events completion].
  pose proof (Math_ceil_perPage_spec limit) as Hceil.
  set (totalPages := Math_ceil (js_div limit perPage)) in *.
  assert (0 <= totalPages) as Hpos by lia.
  exists (Z.to_nat totalPages). rewrite Z2Nat.id by assumption.
  split; [exact Hceil | ]. split.
  - rewrite List.filter_app, rest_calls_of_dispatch, rest_calls_of_errors, app_nil_r.
    reflexivity.
  - intros ->. assert (totalPages = 0) as -> by lia. split; reflexivity.
Qed.

Lemma page_requests_cover_count_witness :
  let r := rest_fetch example_provider stderr string collect_lines
             "octo" "demo" "s3cret" 150 example_files in
  exists totalPages : nat,
    100 * (Z.of_nat totalPages - 1) < 150 <= 100 * Z.of_nat totalPages /\
    List.filter is_network (events r) =
      map (fun p => RestCall {| rq_auth := "s3cret"; rq_owner := "octo"; rq_repo := "demo";
                                rq_filter := "all"; rq_state := "all";
                                rq_per_page := 100; rq_page := p |})
          (pages_upto totalPages) /\
    (150 = 0 -> events r = [] /\ completion r = Normal []).
Proof.
  apply (page_requests_cover_count example_provider stderr "octo" "demo" "s3cret"
           150 example_files).
  lia.
Defined.

(** C3: when exactly one page of the paged fetcher fails, the fetch still
    returns, with the records of all the other pages in page order and nothing
    for the failed page; the cause is logged once; every page was requested. *)
Theorem one_failed_page_is_skipped
    (prov : Provider) (progress : Stream) (owner repo authKey : string)
    (limit : Z) (fs : gmap string string)
    (failed : Z) (cause : JsError) (answers : Z -> OctokitResponse) :
  let totalPages := Math_ceil (js_div limit perPage) in
  let pages := pages_upto (Z.to_nat totalPages) in
  let others := List.filter (fun p => negb (p =? failed)%Z) pages in
  let r := rest_fetch prov progress string collect_lines owner repo authKey limit fs in
  1 <= failed <= totalPages ->
  rest_answer prov (rest_request owner repo authKey failed) = Rejects cause ->
  (forall p, 1 <= p <= totalPages -> p <> failed ->
     rest_answer prov (rest_request owner repo authKey p) = Resolves (answers p)) ->
  completion r = Normal (flat_map (fun p => map title_line (data (answers p))) others) /\
  S (length others) = length pages /\
  List.filter is_console_error (events r) = [ConsoleError "Error:" cause] /\
  List.filter is_network (events r) =
    map (fun p => RestCall (rest_request owner repo authKey p)) pages.
Proof.
  intros totalPages pages others r Hrange Hfailed Hothers. subst r.
  rewrite (rest_fetch_run prov progress string collect_lines title_line ltac:(reflexivity)).
  cbn zeta. fold totalPages. fold pages. cbn [events completion].
  assert (forall p, p ∈ pages -> 1 <= p <= totalPages) as Hin.
  { intros p Hp. apply pages_upto_range in Hp. lia. }
  assert (failed ∈ pages) as Hfin by (apply pages_upto_range; lia).
  repeat split.
  - f_equal. apply flat_map_skip.
    + unfold page_records. now rewrite Hfailed.
    + intros p Hp Hne. unfold page_records. now rewrite (Hothers p (Hin p Hp) Hne).
  - apply filter_out_one; [apply pages_upto_NoDup | assumption].
  - rewrite List.filter_app, no_error_in_dispatch, errors_of_errors. cbn [app].
    rewrite (flat_map_only _ failed); [ | apply pages_upto_NoDup | assumption | ].
    + unfold page_errors. now rewrite Hfailed.
    + intros p Hp Hne. unfold page_errors. now rewrite (Hothers p (Hin p Hp) Hne).
  - rewrite List.filter_app, rest_calls_of_dispatch, rest_calls_of_errors, app_nil_r.
    reflexivity.
Qed.

Lemma one_failed_page_is_skipped_witness :
  let r := rest_fetch example_provider stderr string collect_lines
             "octo" "demo" "s3cret" 200 example_files in
  completion r = Normal (flat_map (fun p => map title_line (data (example_page p))) [1]) /\
  S (length [1]) = length [1; 2] /\
  List.filter is_console_error (events r) = [ConsoleError "Error:" (RequestError "502")] /\
  List.filter is_network (events r) =
    map (fun p => RestCall (rest_request "octo" "demo" "s3cret" p)) [1; 2].
Proof.
  apply (one_failed_page_is_skipped example_provider stderr "octo" "demo" "s3cret"
           200 example_files 2 (RequestError "502") example_page).
  - vm_compute. split; discriminate.
  - reflexivity.
  - intros p _ Hne. cbn. destruct (Z.eqb_spec p 2); [contradiction | reflexivity].
Defined.

(** ** Cursor fetcher *)

Section CursorClaims.
Variable prov : Provider.
Variable progress : Stream.
Variable R : Type.
Variable keep : Item -> R.
Variables owner repo authKey itemType : string.

#[local] Abbreviation q := (titles_request owner repo authKey itemType).
#[local] Abbreviation fetch fuel totalCount :=
  (cursor_fetch prov progress R keep fuel owner repo authKey itemType totalCount).
#[local] Abbreviation pagesOf totalCount := (Math_ceil (js_div totalCount perPage)).

Lemma cursor_fetch_rounds fuel totalCount fs rs k c :
  served prov q 1 None rs k c ->
  let st := {| itemTitles := records_of keep rs; more := true; cursor := c; page := k |} in
  let r := while_hasNextPage prov progress R keep fuel owner repo authKey itemType
             (pagesOf totalCount) st fs in
  fetch (length rs + fuel) totalCount fs =
  match completion r with
  | Normal st' =>
      mkResult (Normal (itemTitles st')) (files_after r)
        (rounds_events progress itemType (pagesOf totalCount) q 1 None rs ++ events r)
  | Stopped stop =>
      mkResult (Stopped stop) (files_after r)
        (rounds_events progress itemType (pagesOf totalCount) q 1 None rs ++ events r)
  end.
Proof.
  intros Hs st r. unfold cursor_fetch, bind.
  rewrite (loop_served prov progress R keep owner repo authKey itemType
             (pagesOf totalCount) fs rs
             {| itemTitles := []; more := true; cursor := None; page := 1 |}
             k c fuel eq_refl Hs).
  cbn [completion files_after events itemTitles app]. fold st. fold r.
  destruct (completion r); cbn; [now rewrite app_nil_r | reflexivity].
Qed.

(** C4: a rejected page request, the first or a later one, ends the cursor
    fetch with the rejection as its error: the fetch has no return value, so
    the records of the pages fetched before it are lost with it. *)
Theorem failed_cursor_page_aborts_fetch
    (fuel : nat) (totalCount : Z) (fs : gmap string string)
    (rs : list TitlesResponse) (k : Z) (c : option string) (cause : JsError) :
  served prov q 1 None rs k c ->
  titles_answer prov k (q c) = Rejects cause ->
  (length rs < fuel)%nat ->
  let r := fetch fuel totalCount fs in
  completion r = Stopped (Throw cause) /\
  files_after r = fs /\
  events r =
    rounds_events progress itemType (pagesOf totalCount) q 1 None rs
    ++ [round_progress progress itemType (pagesOf totalCount) k; TitlesCall (q c)].
Proof.
  intros Hs Ha Hfuel r. subst r.
  replace fuel with (length rs + S (fuel - S (length rs)))%nat by lia.
  rewrite (cursor_fetch_rounds _ totalCount fs rs k c Hs). cbn zeta.
  rewrite (loop_rejected prov progress R keep owner repo authKey itemType _ _ _ fs cause)
    by (cbn; auto).
  cbn. auto.
Qed.

(** C7: the cursor fetch returns exactly when the provider's flag goes
    down: if the provider announces a further page [length rs] times and
    then none, the fetch makes [length rs + 1] requests and returns the
    records of these pages, whatever the totalCount; and a fetch that
    returns has met such answers. *)
Theorem cursor_fetch_stops_with_flag
    (fuel : nat) (totalCount : Z) (fs : gmap string string) :
  let r := fetch fuel totalCount fs in
  (forall rs k c last,
      served prov q 1 None rs k c ->
      titles_answer prov k (q c) = Resolves last ->
      hasNextPage (pageInfo last) = false ->
      (length rs < fuel)%nat ->
      completion r = Normal (records_of keep (rs ++ [last])) /\
      List.filter is_network (events r) =
        map (fun sent => TitlesCall (q sent)) (cursors_sent None rs) /\
      length (List.filter is_network (events r)) = S (length rs)) /\
  (forall titles,
      completion r = Normal titles ->
      exists rs k c last,
        served prov q 1 None rs k c /\
        titles_answer prov k (q c) = Resolves last /\
        hasNextPage (pageInfo last) = false /\
        (length rs < fuel)%nat /\
        titles = records_of keep (rs ++ [last])).
Proof.
  intros r. subst r. split.
  - intros rs k c last Hs Ha Hn Hfuel.
    replace fuel with (length rs + S (fuel - S (length rs)))%nat by lia.
    rewrite (cursor_fetch_rounds _ totalCount fs rs k c Hs). cbn zeta.
    rewrite (loop_last prov progress R keep owner repo authKey itemType _ _ _ fs last)
      by (cbn; auto).
    cbn [completion files_after events itemTitles next_state page cursor].
    assert (List.filter is_network
              (rounds_events progress itemType (pagesOf totalCount) q 1 None rs
               ++ [round_progress progress itemType (pagesOf totalCount) k;
                   TitlesCall (q c)])
            = map (fun sent => TitlesCall (q sent)) (cursors_sent None rs)) as Hcalls.
    { clear Ha Hfuel. induction Hs as [k0 c0 | k0 c0 resp rs k1 c1 Hr Hm Hs IH];
        [reflexivity | ].
      cbn [rounds_events app List.filter is_network round_progress cursors_sent map].
      f_equal. destruct rs; exact IH. }
    split; [ | split].
    + unfold records_of. rewrite flat_map_app. cbn. now rewrite app_nil_r.
    + exact Hcalls.
    + rewrite Hcalls, length_map. clear. generalize (@None string).
      induction rs as [ | resp rs IH]; intros c0; [reflexivity | ].
      cbn [cursors_sent length]. f_equal. apply IH.
  - intros titles Hc. unfold cursor_fetch, bind in Hc.
    destruct (completion (while_hasNextPage prov progress R keep fuel owner repo
                            authKey itemType (pagesOf totalCount)
                            {| itemTitles := []; more := true; cursor := None; page := 1 |}
                            fs)) as [st' | stop] eqn:Hloop; [ | discriminate].
    cbn in Hc. inversion Hc; subst titles.
    destruct (loop_returns prov progress R keep owner repo authKey itemType _ fs fuel
                {| itemTitles := []; more := true; cursor := None; page := 1 |}
                st' eq_refl Hloop)
      as (rs & k & c & last & Hs & Ha & Hn & Hlen & Hitems).
    exists rs, k, c, last. repeat split; assumption.
Qed.

(** C8: two cursor fetches that differ only in their totalCount return the
    same thing, leave the same files and make the same requests: only
    their progress lines can differ. *)
Theorem total_count_only_in_progress
    (fuel : nat) (totalCount1 totalCount2 : Z) (fs : gmap string string) :
  completion (fetch fuel totalCount1 fs) = completion (fetch fuel totalCount2 fs) /\
  files_after (fetch fuel totalCount1 fs) = files_after (fetch fuel totalCount2 fs) /\
  List.filter (fun e => negb (is_progress e)) (events (fetch fuel totalCount1 fs)) =
  List.filter (fun e => negb (is_progress e)) (events (fetch fuel totalCount2 fs)).
Proof.
  unfold cursor_fetch, bind.
  destruct (loop_estimate_irrelevant prov progress R keep owner repo authKey itemType
              fuel fs (pagesOf totalCount1) (pagesOf totalCount2)
              {| itemTitles := []; more := true; cursor := None; page := 1 |})
    as (Hc & Hf & He).
  destruct (while_hasNextPage _ _ _ _ _ _ _ _ _ (pagesOf totalCount1) _ fs)
    as [c1 f1 e1].
  destruct (while_hasNextPage _ _ _ _ _ _ _ _ _ (pagesOf totalCount2) _ fs)
    as [c2 f2 e2].
  cbn [completion files_after events] in *. subst c2 f2.
  destruct c1 as [st | stopped]; cbn [ret completion files_after events];
    rewrite ?app_nil_r; auto.
Qed.
End CursorClaims.

Lemma failed_cursor_page_aborts_fetch_witness :
  let q := titles_request "octo" "demo" "s3cret" "discussions" in
  let r := cursor_fetch broken_cursor_provider stderr string title_line 5
             "octo" "demo" "s3cret" "discussions" 3 example_files in
  completion r = Stopped (Throw (RequestError "timeout")) /\
  files_after r = example_files /\
  events r =
    rounds_events stderr "discussions" (Math_ceil (js_div 3 perPage)) q 1 None
      [example_discussions_1]
    ++ [round_progress stderr "discussions" (Math_ceil (js_div 3 perPage)) 2;
        TitlesCall (q (Some "c1"))].
Proof.
  apply (failed_cursor_page_aborts_fetch broken_cursor_provider stderr string title_line
           "octo" "demo" "s3cret" "discussions" 5 3 example_files
           [example_discussions_1] 2 (Some "c1") (RequestError "timeout")).
  - econstructor; [reflexivity | reflexivity | constructor].
  - reflexivity.
  - cbn. lia.
Defined.

Lemma cursor_fetch_stops_with_flag_witness :
  let q := titles_request "octo" "demo" "s3cret" "discussions" in
  let r := cursor_fetch example_provider stderr string title_line 5
             "octo" "demo" "s3cret" "discussions" 3 example_files in
  completion r = Normal (records_of title_line [example_discussions_1; example_discussions_2]) /\
  List.filter is_network (events r) =
    map (fun sent => TitlesCall (q sent)) (cursors_sent None [example_discussions_1]) /\
  length (List.filter is_network (events r)) = 2%nat.
Proof.
  apply (proj1 (cursor_fetch_stops_with_flag example_provider stderr string title_line
                  "octo" "demo" "s3cret" "discussions" 5 3 example_files)
           [example_discussions_1] 2 (Some "c1") example_discussions_2).
  - econstructor; [reflexivity | reflexivity | constructor].
  - reflexivity.
  - reflexivity.
  - cbn. lia.
Defined.

(** ** What the shape of a run implies *)

Section Shapes.
Variables keyFile out : string.
Variable fs : gmap string string.
Variable r : Result unit.
Hypothesis shape : run_shape keyFile out fs r.

Lemma shape_no_exit code : completion r <> Stopped (Exit code).
Proof.
  destruct shape as [c evs Hc _ | ]; cbn; [ | discriminate].
  intros Heq. inversion Heq. now apply (Hc code).
Qed.

Lemma shape_starts_with_key : exists evs, events r = ReadFile keyFile :: evs.
Proof. destruct shape; cbn; eauto. Qed.

Lemma shape_aborted_untouched :
  completion r <> Normal tt ->
  files_after r = fs /\ Forall (fun e => is_file_write e = false) (events r).
Proof.
  destruct shape as [c evs _ He | ]; cbn; [ | congruence].
  intros _. split; [reflexivity | ]. constructor; [reflexivity | exact He].
Qed.

Lemma shape_fetches_before_writes : fetches_before_writes (events r) = true.
Proof.
  destruct shape as [c evs _ He | q fetching titles msg He]; cbn [events].
  - rewrite <- (app_nil_r (ReadFile keyFile :: evs)).
    apply fetches_before_writes_app; [ | constructor].
    constructor; [reflexivity | exact He].
  - change (ReadFile keyFile :: StatsCall q :: fetching ++ ?l)
      with ((ReadFile keyFile :: StatsCall q :: fetching) ++ l).
    apply fetches_before_writes_app.
    + repeat (constructor; [reflexivity | ]). exact He.
    + constructor; [reflexivity | ]. apply Forall_app. split.
      * apply Forall_forall. intros e He'. apply list_elem_of_In, in_map_iff in He'.
        destruct He' as (t & <- & _). reflexivity.
      * repeat constructor.
Qed.

Lemma shape_completed_written :
  completion r = Normal tt ->
  exists fetching titles msg,
    events r = fetching ++ RmFile out :: map (AppendFile out) (as_lines titles)
               ++ [ConsoleLog msg] /\
    Forall (fun e => is_file_write e = false) fetching /\
    existsb is_network fetching = true /\
    files_after r = rewritten out (as_lines titles) fs.
Proof.
  destruct shape as [ | q fetching titles msg He]; cbn; [discriminate | ].
  intros _. exists (ReadFile keyFile :: StatsCall q :: fetching), titles, msg.
  repeat split. repeat (constructor; [reflexivity | ]). exact He.
Qed.
End Shapes.



Lemma FileScript_shape prov fuel argv fs :
  (6 <= length argv)%nat ->
  run_shape (argv_at argv 4) (argv_at argv 5) fs (FileScript.main prov fuel argv fs).
Proof.
  intros Hargs.
  destruct (fs !! argv_at argv 4) as [authKey | ] eqn:Hkey.
  2: { rewrite FileScript_no_key by assumption.
       apply shape_aborted; [discriminate | constructor]. }
  destruct (stats_answer prov
              (stats_request (argv_at argv 2) (argv_at argv 3) authKey))
    as [resp | cause] eqn:Hstats.
  2: { rewrite (FileScript_no_counts _ _ _ _ authKey cause) by assumption.
       apply shape_aborted; [discriminate | repeat constructor]. }
  destruct (rest_lines_normal prov stderr (argv_at argv 2) (argv_at argv 3) authKey
              (issues (counts_of resp) + pullRequests (counts_of resp)) fs)
    as [rest Hrest].
  assert (Forall (fun e => is_file_write e = false)
            (events (FileScript.RESTTitleFetcher_fetch prov (argv_at argv 2)
                       (argv_at argv 3) authKey
                       (issues (counts_of resp) + pullRequests (counts_of resp)) fs)
             ++ events (FileScript.GraphQLTitleFetcher_fetch prov fuel (argv_at argv 2)
                          (argv_at argv 3) authKey (discussions (counts_of resp))
                          "discussions" fs))) as Hquiet.
  { apply Forall_app. split; apply quiet_events;
      [apply rest_fetch_quiet, collect_lines_quiet | apply cursor_fetch_quiet]. }
  destruct (completion (FileScript.GraphQLTitleFetcher_fetch prov fuel (argv_at argv 2)
                          (argv_at argv 3) authKey (discussions (counts_of resp))
                          "discussions" fs)) as [disc | c] eqn:Hcursor.
  - rewrite (FileScript_completes _ _ _ _ authKey resp rest disc) by assumption.
    rewrite app_assoc. apply shape_completed. exact Hquiet.
  - rewrite (FileScript_fetch_stopped _ _ _ _ authKey resp c) by assumption.
    apply shape_aborted.
    + intros code ->. revert Hcursor. apply quiet_no_exit, cursor_fetch_quiet.
    + constructor; [reflexivity | exact Hquiet].
Qed.

Lemma FunctionScript_shape prov fuel argv fs :
  (6 <= length argv)%nat ->
  run_shape (argv_at argv 4) (argv_at argv 5) fs (FunctionScript.main prov fuel argv fs).
Proof.
  intros Hargs.
  destruct (fs !! argv_at argv 4) as [authKey | ] eqn:Hkey.
  2: { rewrite FunctionScript_no_key by assumption.
       apply shape_aborted; [discriminate | constructor]. }
  destruct (stats_answer prov
              (stats_request (argv_at argv 2) (argv_at argv 3) authKey))
    as [resp | cause] eqn:Hstats.
  2: { rewrite (FunctionScript_no_counts _ _ _ _ authKey cause) by assumption.
       apply shape_aborted; [discriminate | repeat constructor]. }
  destruct (rest_lines_normal prov stdout (argv_at argv 2) (argv_at argv 3) authKey
              (issues (counts_of resp) + pullRequests (counts_of resp)) fs)
    as [rest Hrest].
  assert (Forall (fun e => is_file_write e = false)
            (events (FunctionScript.fetchItemTitles prov fuel authKey (argv_at argv 2)
                       (argv_at argv 3) "discussions" (discussions (counts_of resp)) fs)))
    as Hquiet by (apply quiet_events, cursor_fetch_quiet).
  destruct (completion (FunctionScript.fetchItemTitles prov fuel authKey (argv_at argv 2)
                          (argv_at argv 3) "discussions" (discussions (counts_of resp)) fs))
    as [disc | c] eqn:Hcursor.
  - rewrite (FunctionScript_completes _ _ _ _ authKey resp rest disc) by assumption.
    rewrite app_assoc. apply shape_completed.
    apply Forall_app. split; [exact Hquiet | ].
    apply quiet_events, rest_fetch_quiet, collect_lines_quiet.
  - rewrite (FunctionScript_fetch_stopped _ _ _ _ authKey resp c) by assumption.
    apply shape_aborted.
    + intros code ->. revert Hcursor. apply quiet_no_exit, cursor_fetch_quiet.
    + constructor; [reflexivity | exact Hquiet].
Qed.

(** ** The runs of the stdout script *)

Lemma readFileSync_quiet path : quiet (readFileSync path).
Proof.
  intros fs. unfold readFileSync. destruct (fs !! path); cbn;
    repeat split; try discriminate; repeat constructor.
Qed.

Section StdoutScriptRuns.
Variable prov : Provider.
Variables (fuel : nat) (argv : list string) (fs : gmap string string).

Lemma StdoutScript_usage :
  (length argv < 5)%nat ->
  StdoutScript.main prov fuel argv fs =
  mkResult (Stopped (Exit 1)) fs
    [ConsoleLog ("Usage: node " +:+ argv_at argv 1
       +:+ " <user-or-organisation> <repo> <personal-access-token-file>")].
Proof.
  intros H. unfold StdoutScript.main.
  destruct (Z.ltb_spec (Z.of_nat (length argv)) 5); [reflexivity | lia].
Qed.

Lemma StdoutScript_quiet :
  (5 <= length argv)%nat -> quiet (StdoutScript.main prov fuel argv).
Proof.
  intros H. unfold StdoutScript.main.
  destruct (Z.ltb_spec (Z.of_nat (length argv)) 5); [lia | ].
  quiet_step; [apply readFileSync_quiet | ].
  quiet_step; [apply stats_fetch_quiet | ].
  match goal with |- quiet (match ?x with _ => _ end) => destruct x end;
    [ | repeat quiet_step].
  quiet_step; [apply rest_fetch_quiet, collect_items_quiet | ].
  quiet_step; [apply cursor_fetch_quiet | ].
  unfold console_log. repeat quiet_step.
Qed.

Lemma StdoutScript_starts_with_key :
  (5 <= length argv)%nat ->
  exists evs, events (StdoutScript.main prov fuel argv fs) = ReadFile (argv_at argv 4) :: evs.
Proof.
  intros H. unfold StdoutScript.main.
  destruct (Z.ltb_spec (Z.of_nat (length argv)) 5); [lia | ].
  unfold bind at 1. unfold readFileSync.
  destruct (fs !! argv_at argv 4); cbn; eauto.
Qed.

Lemma StdoutScript_no_counts authKey reason :
  (5 <= length argv)%nat ->
  fs !! argv_at argv 4 = Some authKey ->
  stats_answer prov (stats_request (argv_at argv 2) (argv_at argv 3) authKey)
  = Rejects reason ->
  StdoutScript.main prov fuel argv fs =
  mkResult
    (Stopped (Throw (TypeError "Cannot read properties of undefined (reading 'issues')")))
    fs
    [ReadFile (argv_at argv 4);
     StatsCall (stats_request (argv_at argv 2) (argv_at argv 3) authKey);
     ConsoleError "Error fetching repository stats:" reason].
Proof.
  intros H Hk Hs. unfold StdoutScript.main.
  destruct (Z.ltb_spec (Z.of_nat (length argv)) 5); [lia | ].
  run_bind authKey [ReadFile (argv_at argv 4)]; [ | unfold readFileSync; now rewrite Hk].
  run_bind (@None RepoStats)
    [StatsCall (stats_request (argv_at argv 2) (argv_at argv 3) authKey);
     ConsoleError "Error fetching repository stats:" reason];
    [ | unfold StdoutScript.ItemCountFetcher_fetch; now rewrite stats_fetch_run, Hs].
  reflexivity.
Qed.
End StdoutScriptRuns.

(** ** The scripts *)

(** C1 fails on fetch-issue-titles.js.  On the example repository both
    fetches complete, the paged one with the issues [1,bug] and [2,fix], the
    cursor one with the discussions [7,idea] and [8,poll]; the class based file
    script writes the issues first, as the claim says, and fetch-issue-titles.js
    writes the discussions first: its titles object gets its "discussions" key
    before its "issues" key and is written in that order. *)
Lemma function_script_writes_discussions_first :
  let issuesAndPulls := ["1,bug"; "2,fix"] in
  let talks := ["7,idea"; "8,poll"] in
  completion (FunctionScript.fetchIssueTitles example_provider "s3cret" "octo" "demo"
                (150 + 50) example_files) = Normal issuesAndPulls /\
  completion (FunctionScript.fetchItemTitles example_provider 5 "s3cret" "octo" "demo"
                "discussions" 3 example_files) = Normal talks /\
  completion (FunctionScript.main example_provider 5 example_argv example_files)
  = Normal tt /\
  appended (events (FunctionScript.main example_provider 5 example_argv example_files))
  = as_lines (talks ++ issuesAndPulls) /\
  appended (events (FunctionScript.main example_provider 5 example_argv example_files))
  <> as_lines (issuesAndPulls ++ talks) /\
  appended (events (FileScript.main example_provider 5 example_argv example_files))
  = as_lines (issuesAndPulls ++ talks).
Proof. vm_compute. repeat split; try reflexivity. discriminate. Qed.

(** C2: when the aggregate count query fails, the probe only logs the error
    and returns undefined, no counts being made up; the script goes on and
    stops at the next statement with the TypeError of reading a property of
    undefined, having made no further request. *)
Theorem failed_count_probe_ends_in_type_error
    (prov : Provider) (fuel : nat) (argv : list string) (fs : gmap string string)
    (authKey : string) (cause : JsError) :
  let owner := argv_at argv 2 in
  let repo := argv_at argv 3 in
  let probe := [StatsCall (stats_request owner repo authKey);
                ConsoleError "Error fetching repository stats:" cause] in
  let crash :=
    mkResult
      (Stopped (Throw (TypeError "Cannot read properties of undefined (reading 'issues')")))
      fs (ReadFile (argv_at argv 4) :: probe) in
  (6 <= length argv)%nat ->
  fs !! argv_at argv 4 = Some authKey ->
  stats_answer prov (stats_request owner repo authKey) = Rejects cause ->
  FunctionScript.fetchRepoStats prov authKey owner repo fs = mkResult (Normal None) fs probe /\
  FileScript.ItemCountFetcher_fetch prov owner repo authKey fs = mkResult (Normal None) fs probe /\
  FunctionScript.main prov fuel argv fs = crash /\
  FileScript.main prov fuel argv fs = crash /\
  StdoutScript.main prov fuel argv fs = crash.
Proof.
  intros owner repo probe crash Hargs Hkey Hstats.
  unfold FunctionScript.fetchRepoStats, FileScript.ItemCountFetcher_fetch.
  rewrite stats_fetch_run. fold owner repo. rewrite Hstats.
  repeat split.
  - now apply FunctionScript_no_counts.
  - now apply FileScript_no_counts.
  - apply StdoutScript_no_counts; [lia | assumption | assumption].
Qed.

Lemma failed_count_probe_ends_in_type_error_witness :
  let probe := [StatsCall (stats_request "octo" "demo" "s3cret");
                ConsoleError "Error fetching repository stats:" (RequestError "401")] in
  let crash :=
    mkResult
      (Stopped (Throw (TypeError "Cannot read properties of undefined (reading 'issues')")))
      example_files (ReadFile "token.txt" :: probe) in
  FunctionScript.fetchRepoStats broken_stats_provider "s3cret" "octo" "demo" example_files
  = mkResult (Normal None) example_files probe /\
  FileScript.ItemCountFetcher_fetch broken_stats_provider "octo" "demo" "s3cret" example_files
  = mkResult (Normal None) example_files probe /\
  FunctionScript.main broken_stats_provider 5 example_argv example_files = crash /\
  FileScript.main broken_stats_provider 5 example_argv example_files = crash /\
  StdoutScript.main broken_stats_provider 5 example_argv example_files = crash.
Proof.
  apply (failed_count_probe_ends_in_type_error broken_stats_provider 5 example_argv
           example_files "s3cret" (RequestError "401"));
    vm_compute; reflexivity.
Defined.





(** C9: a script started with fewer arguments than its usage line names
    (four for the two file scripts, three for the stdout script) prints that
    line on standard output and exits with status 1, having read no file and
    made no request; started with at least that many it never exits that way
    and begins by reading the token file. *)
Theorem usage_error_iff_too_few_arguments
    (prov : Provider) (fuel : nat) (argv : list string) (fs : gmap string string) :
  let given := length (drop 2 argv) in
  let four := " <user-or-organisation> <repo> <personal-access-token-file> <output-file>" in
  let three := " <user-or-organisation> <repo> <personal-access-token-file>" in
  ((given < 4)%nat ->
   FunctionScript.main prov fuel argv fs = usage_exit argv four fs /\
   FileScript.main prov fuel argv fs = usage_exit argv four fs) /\
  ((given < 3)%nat ->
   StdoutScript.main prov fuel argv fs = usage_exit argv three fs) /\
  ((4 <= given)%nat ->
   past_usage (argv_at argv 4) (FunctionScript.main prov fuel argv fs) /\
   past_usage (argv_at argv 4) (FileScript.main prov fuel argv fs)) /\
  ((3 <= given)%nat ->
   past_usage (argv_at argv 4) (StdoutScript.main prov fuel argv fs)).
Proof.
  intros given four three. subst given. rewrite length_drop.
  split; [ | split; [ | split]]; intros Hgiven.
  - split; [apply FunctionScript_usage | apply FileScript_usage]; lia.
  - apply StdoutScript_usage. lia.
  - assert (6 <= length argv)%nat as Hargs by lia. split; split.
    + intros code. apply (shape_no_exit (argv_at argv 4) (argv_at argv 5) fs).
      now apply FunctionScript_shape.
    + apply (shape_starts_with_key (argv_at argv 4) (argv_at argv 5) fs).
      now apply FunctionScript_shape.
    + intros code. apply (shape_no_exit (argv_at argv 4) (argv_at argv 5) fs).
      now apply FileScript_shape.
    + apply (shape_starts_with_key (argv_at argv 4) (argv_at argv 5) fs).
      now apply FileScript_shape.
  - assert (5 <= length argv)%nat as Hargs by lia. split.
    + intros code. now apply quiet_no_exit, StdoutScript_quiet.
    + now apply StdoutScript_starts_with_key.
Qed.

Lemma usage_error_iff_too_few_arguments_witness :
  let four := " <user-or-organisation> <repo> <personal-access-token-file> <output-file>" in
  let short := ["node"; "fetch.js"; "octo"; "demo"; "token.txt"] in
  (FunctionScript.main example_provider 5 short example_files
   = usage_exit short four example_files /\
   FileScript.main example_provider 5 short example_files
   = usage_exit short four example_files) /\
  (past_usage "token.txt" (FunctionScript.main example_provider 5 example_argv example_files) /\
   past_usage "token.txt" (FileScript.main example_provider 5 example_argv example_files)) /\
  past_usage "token.txt" (StdoutScript.main example_provider 5 short example_files).
Proof.
  intros four short. split; [ | split].
  - apply (proj1 (usage_error_iff_too_few_arguments example_provider 5 short example_files)).
    vm_compute. lia.
  - apply (proj1 (proj2 (proj2 (usage_error_iff_too_few_arguments example_provider 5
                                  example_argv example_files)))).
    vm_compute. lia.
  - apply (proj2 (proj2 (proj2 (usage_error_iff_too_few_arguments example_provider 5
                                  short example_files)))).
    vm_compute. lia.
Defined.

Lemma usage_writes_only_after_fetches argv arguments fs :
  writes_only_after_fetches fs (usage_exit argv arguments fs).
Proof. split; [intros _; split; [reflexivity | repeat constructor] | reflexivity]. Qed.

Lemma shape_writes_only_after_fetches keyFile out fs r :
  run_shape keyFile out fs r -> writes_only_after_fetches fs r.
Proof.
  intros Hshape. split.
  - now apply (shape_aborted_untouched keyFile out).
  - now apply (shape_fetches_before_writes keyFile out fs).
Qed.

(** C10: a run of a file script that does not complete (a fetch raised, the
    count probe left undefined counts, the token file was missing, the
    arguments were too few) leaves every file as it was and has made no
    change to any; and in every run no request follows a change of a file:
    the output file is removed and written only after the fetches. *)
Theorem aborted_run_leaves_files
    (prov : Provider) (fuel : nat) (argv : list string) (fs : gmap string string) :
  writes_only_after_fetches fs (FileScript.main prov fuel argv fs) /\
  writes_only_after_fetches fs (FunctionScript.main prov fuel argv fs).
Proof.
  destruct (Nat.lt_ge_cases (length argv) 6) as [Hfew | Hargs]; split.
  - rewrite FileScript_usage by assumption. apply usage_writes_only_after_fetches.
  - rewrite FunctionScript_usage by assumption. apply usage_writes_only_after_fetches.
  - eapply shape_writes_only_after_fetches, FileScript_shape. exact Hargs.
  - eapply shape_writes_only_after_fetches, FunctionScript_shape. exact Hargs.
Qed.

Lemma aborted_run_leaves_files_witness :
  let r := FileScript.main broken_cursor_provider 5 example_argv example_files in
  completion r <> Normal tt /\
  files_after r = example_files /\
  Forall (fun e => is_file_write e = false) (events r).
Proof.
  assert (completion (FileScript.main broken_cursor_provider 5 example_argv example_files)
          <> Normal tt) as Haborted by (vm_compute; discriminate).
  split; [exact Haborted | ].
  exact (proj1 (proj1 (aborted_run_leaves_files broken_cursor_provider 5 example_argv
                         example_files)) Haborted).
Defined.

(** * Further properties *)

(** ** What a computation emits *)

Lemma emits_only_ret {A} P (a : A) : emits_only P (ret a).
Proof. intros fs. constructor. Qed.

Lemma emits_only_stop {A} P c : emits_only P (@stop A c).
Proof. intros fs. constructor. Qed.

Lemma emits_only_emit (P : Event -> Prop) e : P e -> emits_only P (emit e).
Proof. intros He fs. repeat constructor. exact He. Qed.

Lemma emits_only_bind {A B} P (m : Js A) (k : A -> Js B) :
  emits_only P m -> (forall a, emits_only P (k a)) -> emits_only P (bind m k).
Proof.
  intros Hm Hk fs. unfold bind.
  destruct (completion (m fs)) as [a | c]; cbn; [ | apply Hm].
  apply Forall_app. split; [apply Hm | apply Hk].
Qed.

Lemma emits_only_try_catch {A} P (body : Js A) handler :
  emits_only P body -> (forall e, emits_only P (handler e)) ->
  emits_only P (try_catch body handler).
Proof.
  intros Hb Hh fs. unfold try_catch.
  destruct (completion (body fs)) as [a | [e | code | ]]; cbn; try apply Hb.
  apply Forall_app. split; [apply Hb | apply Hh].
Qed.

Lemma emits_only_await {A} P (p : Promise A) : emits_only P (await p).
Proof. destruct p; [apply emits_only_ret | apply emits_only_stop]. Qed.

Lemma emits_only_forEach {A S} P (l : list A) (body : A -> S -> Js S) :
  (forall x s, emits_only P (body x s)) -> forall s, emits_only P (forEach l body s).
Proof.
  intros Hb. induction l as [ | x l IH]; intros s; cbn [forEach].
  - apply emits_only_ret.
  - apply emits_only_bind; [apply Hb | exact IH].
Qed.

Lemma emits_only_mapE {A B} P (l : list A) (body : A -> Js B) :
  (forall x, emits_only P (body x)) -> emits_only P (mapE l body).
Proof.
  intros Hb. induction l as [ | x l IH]; cbn [mapE].
  - apply emits_only_ret.
  - apply emits_only_bind; [apply Hb | ]. intros y.
    apply emits_only_bind; [exact IH | ]. intros ys. apply emits_only_ret.
Qed.

Lemma emits_only_readFileSync (P : Event -> Prop) path :
  P (ReadFile path) -> emits_only P (readFileSync path).
Proof.
  intros HP fs. unfold readFileSync. destruct (fs !! path); repeat constructor; exact HP.
Qed.

Lemma emits_only_rmSync (P : Event -> Prop) path :
  P (RmFile path) -> emits_only P (rmSync_force path).
Proof. intros HP fs. repeat constructor. exact HP. Qed.

Lemma emits_only_appendFileSync (P : Event -> Prop) path text :
  P (AppendFile path text) -> emits_only P (appendFileSync path text).
Proof. intros HP fs. repeat constructor. exact HP. Qed.

Ltac emits_step :=
  first
    [ apply emits_only_bind; [ | intros ? ]
    | apply emits_only_try_catch; [ | intros ? ]
    | apply emits_only_forEach; intros ? ?
    | apply emits_only_mapE; intros ?
    | apply emits_only_ret
    | apply emits_only_stop
    | apply emits_only_await
    | apply emits_only_emit
    | apply emits_only_readFileSync
    | apply emits_only_rmSync
    | apply emits_only_appendFileSync ].

(** What the three fetchers emit, for a predicate that holds of their
    requests, their progress lines and their error lines. *)
Lemma rest_fetch_emits (P : Event -> Prop) prov progress R collect owner repo authKey limit :
  (forall text, P (StreamWrite progress text)) ->
  (forall page, P (RestCall (rest_request owner repo authKey page))) ->
  (forall label e, P (ConsoleError label e)) ->
  (forall acc value, emits_only P (collect acc value)) ->
  emits_only P (rest_fetch prov progress R collect owner repo authKey limit).
Proof.
  intros Hw Hr He Hc. unfold rest_fetch. emits_step.
  - emits_step. unfold dispatch_page, process_write, octokit_issues_listForRepo.
    repeat emits_step; [apply Hw | apply (Hr x)].
  - emits_step. unfold settle_page, console_error.
    match goal with |- emits_only _ (match ?x with _ => _ end) => destruct x end;
      [apply Hc | repeat emits_step; apply He].
Qed.

Lemma cursor_fetch_emits (P : Event -> Prop) prov progress R keep fuel owner repo authKey
    itemType totalCount :
  (forall text, P (StreamWrite progress text)) ->
  (forall c, P (TitlesCall (titles_request owner repo authKey itemType c))) ->
  emits_only P (cursor_fetch prov progress R keep fuel owner repo authKey itemType totalCount).
Proof.
  intros Hw Hq. unfold cursor_fetch. emits_step; [ | emits_step].
  generalize {| itemTitles := @nil R; more := true; cursor := None; page := 1 |}.
  induction fuel as [ | fuel IH]; intros st; cbn [while_hasNextPage];
    destruct (more st); try solve [emits_step].
  unfold process_write, graphql_titles.
  repeat emits_step; [apply Hw | apply (Hq (cursor st)) | apply IH].
Qed.

Lemma stats_fetch_emits (P : Event -> Prop) prov owner repo authKey :
  P (StatsCall (stats_request owner repo authKey)) ->
  (forall label e, P (ConsoleError label e)) ->
  emits_only P (stats_fetch prov owner repo authKey).
Proof.
  intros Hs He. unfold stats_fetch, graphql_stats, console_error.
  repeat emits_step; [exact Hs | apply He].
Qed.

Lemma collect_lines_emits P acc value : emits_only P (collect_lines acc value).
Proof. destruct value; cbn; [apply emits_only_ret | apply emits_only_stop]. Qed.

Lemma collect_items_emits P acc value : emits_only P (collect_items acc value).
Proof. destruct value; cbn; apply emits_only_ret. Qed.

(** ** More on the paged fetcher *)

Lemma errors_count prov owner repo authKey (l : list Z) :
  length (flat_map (page_errors prov owner repo authKey) l)
  = length (List.filter (is_rejected prov owner repo authKey) l).
Proof.
  induction l as [ | p l IH]; [reflexivity | ].
  cbn [flat_map List.filter]. rewrite length_app, IH.
  unfold page_errors, is_rejected. now destruct (rest_answer _ _).
Qed.

(** X1: whatever the provider answers, the paged fetcher returns, and what
    it returns is, in ascending page order, the records of the pages that
    resolved; it logs one error per rejected page, in page order as well, and
    changes no file. *)
Theorem paged_fetch_in_page_order
    (prov : Provider) (progress : Stream) (owner repo authKey : string)
    (limit : Z) (fs : gmap string string) :
  let pages := pages_upto (Z.to_nat (Math_ceil (js_div limit perPage))) in
  let r := rest_fetch prov progress string collect_lines owner repo authKey limit fs in
  completion r = Normal (flat_map (page_records prov title_line owner repo authKey) pages) /\
  List.filter is_console_error (events r)
  = flat_map (page_errors prov owner repo authKey) pages /\
  length (List.filter is_console_error (events r))
  = length (List.filter (is_rejected prov owner repo authKey) pages) /\
  files_after r = fs.
Proof.
  intros pages r. subst r.
  rewrite (rest_fetch_run prov progress string collect_lines title_line ltac:(reflexivity)).
  cbn zeta. fold pages. cbn [completion files_after events].
  rewrite List.filter_app, no_error_in_dispatch, errors_of_errors. cbn [app].
  repeat split. apply errors_count.
Qed.

(** X2: when every page is rejected the paged fetcher still returns
    normally, with no record at all, after one request and one logged error
    per page. *)
Theorem all_pages_rejected_returns_nothing
    (prov : Provider) (progress : Stream) (owner repo authKey : string)
    (limit : Z) (fs : gmap string string) :
  let totalPages := Math_ceil (js_div limit perPage) in
  let r := rest_fetch prov progress string collect_lines owner repo authKey limit fs in
  (forall p, 1 <= p <= totalPages ->
     exists cause, rest_answer prov (rest_request owner repo authKey p) = Rejects cause) ->
  completion r = Normal [] /\
  length (List.filter is_console_error (events r)) = Z.to_nat totalPages /\
  length (List.filter is_network (events r)) = Z.to_nat totalPages.
Proof.
  intros totalPages r Hall. subst r.
  rewrite (rest_fetch_run prov progress string collect_lines title_line ltac:(reflexivity)).
  cbn zeta. fold totalPages. cbn [completion events].
  set (pages := pages_upto (Z.to_nat totalPages)).
  assert (forall p, p ∈ pages ->
            exists cause, rest_answer prov (rest_request owner repo authKey p) = Rejects cause)
    as Hin.
  { intros p Hp. apply pages_upto_range in Hp. apply Hall. lia. }
  assert (length pages = Z.to_nat totalPages) as Hlen
    by (unfold pages, pages_upto; now rewrite length_map, length_seq).
  repeat split.
  - f_equal. apply flat_map_nil. intros p Hp. destruct (Hin p Hp) as [cause Hc].
    unfold page_records. now rewrite Hc.
  - rewrite List.filter_app, no_error_in_dispatch, errors_of_errors. cbn [app].
    rewrite <- Hlen. clear Hlen. induction pages as [ | p l IH]; [reflexivity | ].
    cbn [flat_map]. rewrite length_app, IH by (intros p' Hp'; apply Hin; now right).
    destruct (Hin p ltac:(now left)) as [cause Hc].
    unfold page_errors. now rewrite Hc.
  - rewrite List.filter_app, rest_calls_of_dispatch, rest_calls_of_errors, app_nil_r.
    now rewrite length_map.
Qed.

Lemma all_pages_rejected_returns_nothing_witness :
  let r := rest_fetch failing_rest_provider stderr string collect_lines
             "octo" "demo" "s3cret" 250 example_files in
  completion r = Normal [] /\
  length (List.filter is_console_error (events r)) = Z.to_nat (Math_ceil (js_div 250 perPage)) /\
  length (List.filter is_network (events r)) = Z.to_nat (Math_ceil (js_div 250 perPage)).
Proof.
  apply (all_pages_rejected_returns_nothing failing_rest_provider stderr
           "octo" "demo" "s3cret" 250 example_files).
  intros p _. exists (RequestError "503"). reflexivity.
Defined.

(** X3: a count that is zero or negative makes the paged fetcher send
    nothing, log nothing and return the empty sequence: a negative array
    length counts as zero. *)
Theorem paged_fetch_without_pages
    (prov : Provider) (progress : Stream) (owner repo authKey : string)
    (limit : Z) (fs : gmap string string) :
  limit <= 0 ->
  rest_fetch prov progress string collect_lines owner repo authKey limit fs
  = mkResult (Normal []) fs [].
Proof.
  intros Hlimit.
  rewrite (rest_fetch_run prov progress string collect_lines title_line ltac:(reflexivity)).
  cbn zeta. pose proof (Math_ceil_perPage_spec limit) as Hceil.
  replace (Z.to_nat (Math_ceil (js_div limit perPage))) with 0%nat by lia.
  reflexivity.
Qed.

Lemma paged_fetch_without_pages_witness :
  rest_fetch example_provider stderr string collect_lines "octo" "demo" "s3cret" (-150)
    example_files
  = mkResult (Normal []) example_files [].
Proof.
  apply (paged_fetch_without_pages example_provider stderr "octo" "demo" "s3cret" (-150)
           example_files).
  lia.
Defined.

(** ** More on the cursor fetcher *)

Lemma pages_from_S (k : Z) (n : nat) :
  pages_from k (S n) = k :: pages_from (k + 1) n.
Proof.
  unfold pages_from. cbn [seq map]. rewrite Z.add_0_r. f_equal.
  rewrite <- seq_shift, map_map. apply map_ext. intros i. lia.
Qed.

Lemma pages_from_snoc (k : Z) (n : nat) :
  pages_from k (S n) = pages_from k n ++ [k + Z.of_nat n].
Proof. unfold pages_from. now rewrite seq_S, map_app. Qed.

Lemma pages_from_one (n : nat) : pages_from 1 n = pages_upto n.
Proof.
  unfold pages_from, pages_upto. rewrite <- seq_shift, map_map.
  apply map_ext. intros i. lia.
Qed.

Lemma served_position prov q k c rs k' c' :
  served prov q k c rs k' c' -> k' = k + Z.of_nat (length rs).
Proof.
  induction 1 as [ | k c resp rs k' c' _ _ _ IH]; cbn [length]; lia.
Qed.

Lemma progress_of_rounds progress itemType totalPages q (rs : list TitlesResponse) :
  forall k c,
    List.filter is_progress (rounds_events progress itemType totalPages q k c rs)
    = map (round_progress progress itemType totalPages) (pages_from k (length rs)).
Proof.
  induction rs as [ | resp rs IH]; intros k c; [reflexivity | ].
  cbn [rounds_events length]. rewrite pages_from_S.
  cbn [List.filter is_progress round_progress map]. f_equal.
  apply (IH (k + 1)).
Qed.

Lemma calls_of_rounds progress itemType totalPages q (rs : list TitlesResponse) :
  forall k c,
    length (List.filter is_network (rounds_events progress itemType totalPages q k c rs))
    = length rs.
Proof.
  induction rs as [ | resp rs IH]; intros k c; [reflexivity | ].
  cbn. f_equal. apply IH.
Qed.

Section CursorExtras.
Variable prov : Provider.
Variable progress : Stream.
Variable R : Type.
Variable keep : Item -> R.
Variables owner repo authKey itemType : string.

#[local] Abbreviation q := (titles_request owner repo authKey itemType).
#[local] Abbreviation fetch fuel totalCount :=
  (cursor_fetch prov progress R keep fuel owner repo authKey itemType totalCount).
#[local] Abbreviation pagesOf totalCount := (Math_ceil (js_div totalCount perPage)).
#[local] Abbreviation loop fuel totalPages :=
  (while_hasNextPage prov progress R keep fuel owner repo authKey itemType totalPages).

(** X4: the cursor fetcher always makes a first request, whatever the
    totalCount (zero included): for the first 100 items, without cursor,
    announced by the progress line of page 1. *)
Theorem cursor_fetch_first_request
    (fuel : nat) (totalCount : Z) (fs : gmap string string) :
  (0 < fuel)%nat ->
  exists evs,
    events (cursor_fetch prov progress R keep fuel owner repo authKey itemType totalCount fs) =
    StreamWrite progress ("Fetching " +:+ itemType +:+ " page 1/"
                          +:+ show (pagesOf totalCount) +:+ CR)
    :: TitlesCall {| tq_itemType := itemType; tq_owner := owner; tq_repo := repo;
                     tq_perPage := 100; tq_cursor := None;
                     tq_authorization := "token " +:+ authKey |}
    :: evs.
Proof.
  intros Hfuel. destruct fuel as [ | fuel]; [lia | ].
  unfold cursor_fetch, bind. rewrite loop_step by reflexivity.
  cbn [page cursor].
  destruct (titles_answer prov 1 (q None)) as [resp | cause]; cbn zeta.
  - cbn [completion files_after events].
    destruct (completion (loop fuel (pagesOf totalCount) _ fs)); cbn; eauto.
  - cbn. eauto.
Qed.

Lemma loop_endless totalPages fs :
  (forall k c, exists resp,
      titles_answer prov k (q c) = Resolves resp /\ hasNextPage (pageInfo resp) = true) ->
  forall fuel st,
    more st = true ->
    completion (loop fuel totalPages st fs) = Stopped OutOfFuel /\
    length (List.filter is_network (events (loop fuel totalPages st fs))) = fuel.
Proof.
  intros Hup. induction fuel as [ | fuel IH]; intros st Hm.
  - rewrite loop_no_fuel by assumption. split; reflexivity.
  - rewrite loop_step by assumption.
    destruct (Hup (page st) (cursor st)) as (resp & Ha & Hn). rewrite Ha. cbn zeta.
    destruct (IH (next_state keep st resp) Hn) as [Hc Hlen].
    cbn. rewrite Hc, Hlen. split; reflexivity.
Qed.

(** X5: the cursor loop has no bound of its own: against a provider that
    announces a further page in every answer, the fetch has neither returned
    nor failed after any number of requests. *)
Theorem cursor_fetch_runs_while_flag_up
    (fuel : nat) (totalCount : Z) (fs : gmap string string) :
  (forall k c, exists resp,
      titles_answer prov k (q c) = Resolves resp /\ hasNextPage (pageInfo resp) = true) ->
  completion (cursor_fetch prov progress R keep fuel owner repo authKey itemType totalCount fs) = Stopped OutOfFuel /\
  length (List.filter is_network (events (cursor_fetch prov progress R keep fuel owner repo authKey itemType totalCount fs))) = fuel.
Proof.
  intros Hup. unfold cursor_fetch, bind.
  destruct (loop_endless (pagesOf totalCount) fs Hup fuel
              {| itemTitles := []; more := true; cursor := None; page := 1 |} eq_refl)
    as [Hc Hlen].
  rewrite Hc. cbn. split; [reflexivity | exact Hlen].
Qed.

(** X6: the progress lines of a cursor fetch that returns after n requests
    count the pages 1, 2, ..., n against the one estimate ceil(totalCount /
    100), which the page number may exceed. *)
Theorem cursor_progress_counts_pages
    (fuel : nat) (totalCount : Z) (fs : gmap string string)
    (rs : list TitlesResponse) (k : Z) (c : option string) (last : TitlesResponse) :
  served prov q 1 None rs k c ->
  titles_answer prov k (q c) = Resolves last ->
  hasNextPage (pageInfo last) = false ->
  (length rs < fuel)%nat ->
  List.filter is_progress (events (cursor_fetch prov progress R keep fuel owner repo authKey itemType totalCount fs))
  = map (fun page =>
           StreamWrite progress ("Fetching " +:+ itemType +:+ " page " +:+ show page
                                 +:+ "/" +:+ show (pagesOf totalCount) +:+ CR))
        (pages_upto (S (length rs))).
Proof.
  intros Hs Ha Hn Hfuel.
  replace fuel with (length rs + S (fuel - S (length rs)))%nat by lia.
  rewrite (cursor_fetch_rounds prov progress R keep owner repo authKey itemType
             _ totalCount fs rs k c Hs).
  cbn zeta.
  rewrite (loop_last prov progress R keep owner repo authKey itemType _ _ _ fs last)
    by (cbn; auto).
  cbn [completion files_after events page cursor].
  rewrite List.filter_app, progress_of_rounds.
  cbn [List.filter is_progress round_progress].
  rewrite <- pages_from_one, pages_from_snoc, map_app.
  rewrite (served_position _ _ _ _ _ _ _ Hs). reflexivity.
Qed.

(** X7: a cursor fetch does nothing but write progress lines on its stream
    and send queries for its own item type, 100 items a page, with the token;
    it changes no file and never ends the process. *)
Theorem cursor_fetch_only_queries
    (fuel : nat) (totalCount : Z) (fs : gmap string string) :
  let r := cursor_fetch prov progress R keep fuel owner repo authKey itemType
             totalCount fs in
  Forall (fun e =>
            (exists text, e = StreamWrite progress text) \/
            (exists sent,
                e = TitlesCall {| tq_itemType := itemType; tq_owner := owner;
                                  tq_repo := repo; tq_perPage := 100; tq_cursor := sent;
                                  tq_authorization := "token " +:+ authKey |}))
         (events r) /\
  files_after r = fs /\
  forall code, completion r <> Stopped (Exit code).
Proof.
  intros r. subst r. split; [ | split].
  - apply cursor_fetch_emits; eauto.
  - apply cursor_fetch_quiet.
  - intros code. apply quiet_no_exit, cursor_fetch_quiet.
Qed.
End CursorExtras.

Lemma cursor_fetch_first_request_witness :
  exists evs,
    events (cursor_fetch example_provider stderr string title_line 1
              "octo" "demo" "s3cret" "discussions" 0 example_files) =
    StreamWrite stderr ("Fetching " +:+ "discussions" +:+ " page 1/"
                        +:+ show (Math_ceil (js_div 0 perPage)) +:+ CR)
    :: TitlesCall {| tq_itemType := "discussions"; tq_owner := "octo"; tq_repo := "demo";
                     tq_perPage := 100; tq_cursor := None;
                     tq_authorization := "token " +:+ "s3cret" |}
    :: evs.
Proof.
  apply (cursor_fetch_first_request example_provider stderr string title_line
           "octo" "demo" "s3cret" "discussions" 1 0 example_files).
  lia.
Defined.

Lemma cursor_fetch_runs_while_flag_up_witness :
  let r := cursor_fetch endless_provider stderr string title_line 7
             "octo" "demo" "s3cret" "discussions" 3 example_files in
  completion r = Stopped OutOfFuel /\
  length (List.filter is_network (events r)) = 7%nat.
Proof.
  apply (cursor_fetch_runs_while_flag_up endless_provider stderr string title_line
           "octo" "demo" "s3cret" "discussions" 7 3 example_files).
  intros k c. exists example_discussions_1. split; reflexivity.
Defined.

Lemma cursor_progress_counts_pages_witness :
  List.filter is_progress
    (events (cursor_fetch example_provider stderr string title_line 5
               "octo" "demo" "s3cret" "discussions" 3 example_files))
  = map (fun page =>
           StreamWrite stderr ("Fetching " +:+ "discussions" +:+ " page " +:+ show page
                               +:+ "/" +:+ show (Math_ceil (js_div 3 perPage)) +:+ CR))
        (pages_upto 2).
Proof.
  apply (cursor_progress_counts_pages example_provider stderr string title_line
           "octo" "demo" "s3cret" "discussions" 5 3 example_files
           [example_discussions_1] 2 (Some "c1") example_discussions_2).
  - econstructor; [reflexivity | reflexivity | constructor].
  - reflexivity.
  - reflexivity.
  - cbn. lia.
Defined.

(** ** More runs of the stdout script *)

Lemma log_each {A} (f : A -> string) (items : list A) fs :
  forEach items (fun item (_ : unit) => console_log (f item)) tt fs =
  mkResult (Normal tt) fs (map (fun item => ConsoleLog (f item)) items).
Proof.
  induction items as [ | item items IH]; [reflexivity | ].
  cbn [forEach]. unfold bind. cbn [console_log emit completion files_after events].
  rewrite IH. reflexivity.
Qed.

Section StdoutScriptMoreRuns.
Variable prov : Provider.
Variables (fuel : nat) (argv : list string) (fs : gmap string string).

#[local] Abbreviation owner := (argv_at argv 2).
#[local] Abbreviation repo := (argv_at argv 3).
#[local] Abbreviation keyFile := (argv_at argv 4).
#[local] Abbreviation outputFile := (argv_at argv 5).
#[local] Abbreviation restf authKey counts :=
  (StdoutScript.RESTTitleFetcher_fetch prov owner repo authKey
     (issues counts + pullRequests counts)).
#[local] Abbreviation cursorf authKey counts :=
  (StdoutScript.GraphQLTitleFetcher_fetch prov fuel owner repo authKey
     (discussions counts) "discussions").

Lemma rest_items_normal authKey limit :
  exists rest, completion (StdoutScript.RESTTitleFetcher_fetch prov owner repo authKey limit fs)
               = Normal rest.
Proof.
  unfold StdoutScript.RESTTitleFetcher_fetch.
  rewrite (rest_fetch_run prov stderr Item collect_items
             (fun item => {| number := number item; title := title item |})
             ltac:(reflexivity)).
  eexists. reflexivity.
Qed.

Lemma StdoutScript_no_key :
  (5 <= length argv)%nat ->
  fs !! keyFile = None ->
  StdoutScript.main prov fuel argv fs =
  mkResult (Stopped (Throw (SystemError "ENOENT"))) fs [ReadFile keyFile].
Proof.
  intros H Hk. unfold StdoutScript.main.
  destruct (Z.ltb_spec (Z.of_nat (length argv)) 5); [lia | ].
  apply bind_run_stopped. unfold readFileSync. now rewrite Hk.
Qed.

Lemma StdoutScript_fetch_stopped authKey resp c :
  (5 <= length argv)%nat ->
  fs !! keyFile = Some authKey ->
  stats_answer prov (stats_request owner repo authKey) = Resolves resp ->
  completion (cursorf authKey (counts_of resp) fs) = Stopped c ->
  StdoutScript.main prov fuel argv fs =
  mkResult (Stopped c) fs
    (ReadFile keyFile :: StatsCall (stats_request owner repo authKey)
     :: events (restf authKey (counts_of resp) fs)
     ++ events (cursorf authKey (counts_of resp) fs)).
Proof.
  intros H Hk Hs Hc. unfold StdoutScript.main.
  destruct (Z.ltb_spec (Z.of_nat (length argv)) 5); [lia | ].
  run_bind authKey [ReadFile keyFile]; [ | unfold readFileSync; now rewrite Hk].
  run_bind (Some (counts_of resp)) [StatsCall (stats_request owner repo authKey)];
    [ | unfold StdoutScript.ItemCountFetcher_fetch; now rewrite stats_fetch_run, Hs].
  cbn iota.
  destruct (rest_items_normal authKey
              (issues (counts_of resp) + pullRequests (counts_of resp))) as [rest Hr].
  rewrite (bind_run _ _ fs rest fs (events (restf authKey (counts_of resp) fs)))
    by (apply quiet_run; [apply rest_fetch_quiet, collect_items_quiet | exact Hr]).
  cbn beta.
  rewrite (bind_run_stopped _ _ fs c fs (events (cursorf authKey (counts_of resp) fs)))
    by (apply quiet_run; [apply cursor_fetch_quiet | exact Hc]).
  reflexivity.
Qed.

Lemma StdoutScript_completes authKey resp rest disc :
  (5 <= length argv)%nat ->
  fs !! keyFile = Some authKey ->
  stats_answer prov (stats_request owner repo authKey) = Resolves resp ->
  completion (restf authKey (counts_of resp) fs) = Normal rest ->
  completion (cursorf authKey (counts_of resp) fs) = Normal disc ->
  StdoutScript.main prov fuel argv fs =
  mkResult (Normal tt) fs
    (ReadFile keyFile :: StatsCall (stats_request owner repo authKey)
     :: events (restf authKey (counts_of resp) fs)
     ++ events (cursorf authKey (counts_of resp) fs)
     ++ map (fun item => ConsoleLog (title_line item)) (rest ++ disc)
     ++ [ConsoleLog ("Written " +:+ show (Z.of_nat (length (rest ++ disc)))
                     +:+ " titles to " +:+ outputFile)]).
Proof.
  intros H Hk Hs Hr Hc. unfold StdoutScript.main.
  destruct (Z.ltb_spec (Z.of_nat (length argv)) 5); [lia | ].
  run_bind authKey [ReadFile keyFile]; [ | unfold readFileSync; now rewrite Hk].
  run_bind (Some (counts_of resp)) [StatsCall (stats_request owner repo authKey)];
    [ | unfold StdoutScript.ItemCountFetcher_fetch; now rewrite stats_fetch_run, Hs].
  cbn iota.
  rewrite (bind_run _ _ fs rest fs (events (restf authKey (counts_of resp) fs)))
    by (apply quiet_run; [apply rest_fetch_quiet, collect_items_quiet | exact Hr]).
  cbn beta.
  rewrite (bind_run _ _ fs disc fs (events (cursorf authKey (counts_of resp) fs)))
    by (apply quiet_run; [apply cursor_fetch_quiet | exact Hc]).
  cbn beta zeta.
  rewrite (bind_run _ _ fs tt fs
             (map (fun item => ConsoleLog (title_line item)) (rest ++ disc)))
    by apply (log_each title_line).
  reflexivity.
Qed.
End StdoutScriptMoreRuns.

(** ** The runs of a script, case by case *)

Ltac stdout_cases prov fuel argv fs :=
  destruct (Nat.lt_ge_cases (length argv) 5) as [Hfew | Hargs];
  [ pose proof (StdoutScript_usage prov fuel argv fs Hfew) as Hrun
  | destruct (fs !! argv_at argv 4) as [authKey | ] eqn:Hkey;
    [ destruct (stats_answer prov
                  (stats_request (argv_at argv 2) (argv_at argv 3) authKey))
        as [resp | cause] eqn:Hstats;
      [ destruct (rest_items_normal prov argv fs authKey
                    (issues (counts_of resp) + pullRequests (counts_of resp)))
          as [rest Hrest];
        destruct (completion
                    (StdoutScript.GraphQLTitleFetcher_fetch prov fuel (argv_at argv 2)
                       (argv_at argv 3) authKey (discussions (counts_of resp))
                       "discussions" fs)) as [disc | c] eqn:Hcursor;
        [ pose proof (StdoutScript_completes prov fuel argv fs authKey resp rest disc
                        Hargs Hkey Hstats Hrest Hcursor) as Hrun
        | pose proof (StdoutScript_fetch_stopped prov fuel argv fs authKey resp c
                        Hargs Hkey Hstats Hcursor) as Hrun ]
      | pose proof (StdoutScript_no_counts prov fuel argv fs authKey cause
                      Hargs Hkey Hstats) as Hrun ]
    | pose proof (StdoutScript_no_key prov fuel argv fs Hargs Hkey) as Hrun ] ].

(** ** More on the scripts *)

Lemma Forall_appends (P : Event -> Prop) out (texts : list string) :
  (forall text, P (AppendFile out text)) -> Forall P (map (AppendFile out) texts).
Proof. intros HP. induction texts; cbn; constructor; auto. Qed.

Lemma Forall_logs {A} (P : Event -> Prop) (f : A -> string) (items : list A) :
  (forall text, P (ConsoleLog text)) -> Forall P (map (fun item => ConsoleLog (f item)) items).
Proof. intros HP. induction items; cbn; constructor; auto. Qed.

Lemma carries_token_rest prov progress R collect owner repo token limit fs :
  (forall acc value, emits_only (fun e => carries_token token e = true) (collect acc value)) ->
  Forall (fun e => carries_token token e = true)
         (events (rest_fetch prov progress R collect owner repo token limit fs)).
Proof.
  intros Hc. apply rest_fetch_emits; try reflexivity; [ | exact Hc].
  intros page. cbn. apply String.eqb_refl.
Qed.

Lemma carries_token_cursor prov progress R keep fuel owner repo token itemType totalCount fs :
  Forall (fun e => carries_token token e = true)
         (events (cursor_fetch prov progress R keep fuel owner repo token itemType
                    totalCount fs)).
Proof.
  apply cursor_fetch_emits; [reflexivity | ]. intros c. cbn. apply String.eqb_refl.
Qed.

Ltac token_events :=
  repeat first
    [ apply List.Forall_nil
    | apply List.Forall_cons; [cbn; first [reflexivity | apply String.eqb_refl] | ]
    | apply Forall_app; split
    | apply carries_token_cursor
    | apply carries_token_rest; intros; first [apply collect_lines_emits | apply collect_items_emits]
    | apply Forall_appends; reflexivity
    | apply Forall_logs; reflexivity ].

(** X8: the token is sent as it is read: in every run of every script whose
    token file holds [token], each request carries exactly that text, bare
    for Octokit and behind "token " in the authorization header of the GraphQL
    queries; nothing is trimmed or altered. *)
Theorem requests_carry_the_token_file
    (prov : Provider) (fuel : nat) (argv : list string) (fs : gmap string string)
    (token : string) :
  fs !! argv_at argv 4 = Some token ->
  Forall (fun e => carries_token token e = true) (events (FunctionScript.main prov fuel argv fs)) /\
  Forall (fun e => carries_token token e = true) (events (FileScript.main prov fuel argv fs)) /\
  Forall (fun e => carries_token token e = true) (events (StdoutScript.main prov fuel argv fs)).
Proof.
  intros Htoken. split; [ | split].
  - function_cases prov fuel argv fs; rewrite Hrun; cbn [events];
      try (inversion Htoken; subst authKey); try discriminate; token_events.
  - file_cases prov fuel argv fs; rewrite Hrun; cbn [events];
      try (inversion Htoken; subst authKey); try discriminate; token_events.
  - stdout_cases prov fuel argv fs; rewrite Hrun; cbn [events];
      try (inversion Htoken; subst authKey); try discriminate; token_events.
Qed.

Lemma requests_carry_the_token_file_witness :
  Forall (fun e => carries_token "s3cret" e = true)
         (events (FunctionScript.main example_provider 5 example_argv example_files)) /\
  Forall (fun e => carries_token "s3cret" e = true)
         (events (FileScript.main example_provider 5 example_argv example_files)) /\
  Forall (fun e => carries_token "s3cret" e = true)
         (events (StdoutScript.main example_provider 5 example_argv example_files)).
Proof.
  apply (requests_carry_the_token_file example_provider 5 example_argv example_files "s3cret").
  vm_compute. reflexivity.
Defined.

Lemma none_after_app (late early : Event -> bool) (l1 l2 : list Event) :
  Forall (fun e => early e = false) l1 ->
  Forall (fun e => late e = false) l2 ->
  none_after late early (l1 ++ l2) = true.
Proof.
  intros H1 H2. induction H1 as [ | e l1 He _ IH]; cbn.
  - induction H2 as [ | e l2 He H2 IH]; [reflexivity | ].
    cbn. rewrite IH, andb_true_r. destruct (early e); [ | reflexivity].
    clear IH. induction H2 as [ | e' l2 He' _ IH]; [reflexivity | ].
    cbn. now rewrite He', IH.
  - now rewrite He, IH.
Qed.

Lemma no_titles_call_in_rest prov progress R collect owner repo authKey limit fs :
  (forall acc value, emits_only (fun e => is_titles_call e = false) (collect acc value)) ->
  Forall (fun e => is_titles_call e = false)
         (events (rest_fetch prov progress R collect owner repo authKey limit fs)).
Proof. intros Hc. apply rest_fetch_emits; try reflexivity. exact Hc. Qed.

Lemma no_rest_call_in_cursor prov progress R keep fuel owner repo authKey itemType
    totalCount fs :
  Forall (fun e => is_rest_call e = false)
         (events (cursor_fetch prov progress R keep fuel owner repo authKey itemType
                    totalCount fs)).
Proof. apply cursor_fetch_emits; reflexivity. Qed.

Ltac plain_events :=
  repeat first
    [ apply List.Forall_nil
    | apply List.Forall_cons; [reflexivity | ]
    | apply Forall_app; split
    | apply no_rest_call_in_cursor
    | apply no_titles_call_in_rest; intros;
        first [apply collect_lines_emits | apply collect_items_emits]
    | apply Forall_appends; reflexivity
    | apply Forall_logs; reflexivity ].

(** X9: the two list fetches of a run never overlap: the class based
    scripts make no REST request once a discussions query has been sent (they
    await the paged fetch first), and fetch-issue-titles.js makes no
    discussions query once a REST request has been sent (it awaits the cursor
    fetch first). *)
Theorem list_fetches_run_in_sequence
    (prov : Provider) (fuel : nat) (argv : list string) (fs : gmap string string) :
  none_after is_rest_call is_titles_call (events (FileScript.main prov fuel argv fs)) = true /\
  none_after is_rest_call is_titles_call (events (StdoutScript.main prov fuel argv fs)) = true /\
  none_after is_titles_call is_rest_call (events (FunctionScript.main prov fuel argv fs)) = true.
Proof.
  split; [ | split].
  - file_cases prov fuel argv fs; rewrite Hrun; cbn [events]; try reflexivity.
    + change (ReadFile ?a :: StatsCall ?b :: ?x ++ ?y)
        with ((ReadFile a :: StatsCall b :: x) ++ y).
      apply none_after_app; plain_events.
    + change (ReadFile ?a :: StatsCall ?b :: ?x ++ ?y)
        with ((ReadFile a :: StatsCall b :: x) ++ y).
      apply none_after_app; plain_events.
  - stdout_cases prov fuel argv fs; rewrite Hrun; cbn [events]; try reflexivity.
    + change (ReadFile ?a :: StatsCall ?b :: ?x ++ ?y)
        with ((ReadFile a :: StatsCall b :: x) ++ y).
      apply none_after_app; plain_events.
    + change (ReadFile ?a :: StatsCall ?b :: ?x ++ ?y)
        with ((ReadFile a :: StatsCall b :: x) ++ y).
      apply none_after_app; plain_events.
  - function_cases prov fuel argv fs; rewrite Hrun; cbn [events]; try reflexivity.
    + change (ReadFile ?a :: StatsCall ?b :: ?x ++ ?y)
        with ((ReadFile a :: StatsCall b :: x) ++ y).
      apply none_after_app; plain_events.
    + rewrite <- (app_nil_r (ReadFile _ :: _)).
      apply none_after_app; plain_events.
Qed.

Lemma rewritten_output out (texts : list string) (fs : gmap string string) :
  rewritten out texts fs !! out
  = match texts with [] => None | _ :: _ => Some (join texts) end.
Proof.
  destruct texts; cbn [rewritten].
  - apply lookup_delete_eq.
  - apply lookup_insert_eq.
Qed.

Lemma rest_makes_no_file_call prov keyFile out progress owner repo authKey limit fs :
  Forall (file_call_on keyFile out)
    (events (rest_fetch prov progress string collect_lines owner repo authKey limit fs)).
Proof.
  apply rest_fetch_emits; try (intros; exact I). intros. apply collect_lines_emits.
Qed.

Lemma cursor_makes_no_file_call prov fuel keyFile out progress owner repo authKey
    itemType totalCount fs :
  Forall (file_call_on keyFile out)
    (events (cursor_fetch prov progress string title_line fuel owner repo authKey
               itemType totalCount fs)).
Proof. apply cursor_fetch_emits; intros; exact I. Qed.

Ltac file_calls :=
  repeat first
    [ apply List.Forall_nil
    | apply List.Forall_cons; [first [reflexivity | exact I] | ]
    | apply Forall_app; split
    | apply rest_makes_no_file_call
    | apply cursor_makes_no_file_call
    | apply Forall_appends; reflexivity ].

(** X10: the only calls a file script makes to the file system are
    [readFileSync] on its third argument and [rmSync] and [appendFileSync] on
    its fourth argument, each path passed as it was given; in no run is any
    other path read, removed or written. *)
Theorem file_calls_name_only_the_arguments
    (prov : Provider) (fuel : nat) (argv : list string) (fs : gmap string string) :
  Forall (file_call_on (argv_at argv 4) (argv_at argv 5))
         (events (FileScript.main prov fuel argv fs)) /\
  Forall (file_call_on (argv_at argv 4) (argv_at argv 5))
         (events (FunctionScript.main prov fuel argv fs)).
Proof.
  split.
  - file_cases prov fuel argv fs; rewrite Hrun; cbn [events];
      unfold FileScript.RESTTitleFetcher_fetch, FileScript.GraphQLTitleFetcher_fetch;
      file_calls.
  - function_cases prov fuel argv fs; rewrite Hrun; cbn [events];
      unfold FunctionScript.fetchIssueTitles, FunctionScript.fetchItemTitles;
      file_calls.
Qed.

Lemma shape_output_content keyFile out fs r :
  run_shape keyFile out fs r ->
  completion r = Normal tt ->
  files_after r !! out
  = match appended (events r) with [] => None | _ :: _ => Some (join (appended (events r))) end.
Proof.
  intros [c evs _ _ | q fetching titles msg Hquiet] Hdone; cbn in Hdone; [discriminate | ].
  cbn [files_after events]. rewrite rewritten_output.
  change (ReadFile ?a :: StatsCall ?b :: ?l) with ([ReadFile a; StatsCall b] ++ l).
  rewrite !appended_app.
  change (RmFile ?a :: ?l) with ([RmFile a] ++ l). rewrite !appended_app, appended_map.
  rewrite (appended_quiet fetching) by assumption.
  cbn. now rewrite app_nil_r.
Qed.

(** X11: after a completed run of a file script the output file holds
    exactly the lines appended during that run, end to end, and nothing of
    what it held before; when no line was appended there is no output file at
    all, even if there was one before. *)
Theorem output_file_holds_the_lines_written
    (prov : Provider) (fuel : nat) (argv : list string) (fs : gmap string string) :
  let content (r : Result unit) :=
    match appended (events r) with
    | [] => None
    | _ :: _ => Some (join (appended (events r)))
    end in
  (completion (FileScript.main prov fuel argv fs) = Normal tt ->
   files_after (FileScript.main prov fuel argv fs) !! argv_at argv 5
   = content (FileScript.main prov fuel argv fs)) /\
  (completion (FunctionScript.main prov fuel argv fs) = Normal tt ->
   files_after (FunctionScript.main prov fuel argv fs) !! argv_at argv 5
   = content (FunctionScript.main prov fuel argv fs)).
Proof.
  intros content. subst content. cbn beta.
  destruct (Nat.lt_ge_cases (length argv) 6) as [Hfew | Hargs].
  - rewrite FileScript_usage, FunctionScript_usage by assumption.
    split; intros Hdone; discriminate Hdone.
  - split; apply (shape_output_content (argv_at argv 4) (argv_at argv 5) fs).
    + now apply FileScript_shape.
    + now apply FunctionScript_shape.
Qed.

Lemma output_file_holds_the_lines_written_witness :
  let r := FileScript.main example_provider 5 example_argv example_files in
  completion r = Normal tt /\
  files_after r !! argv_at example_argv 5
  = match appended (events r) with
    | [] => None
    | _ :: _ => Some (join (appended (events r)))
    end.
Proof.
  split; [vm_compute; reflexivity | ].
  apply (proj1 (output_file_holds_the_lines_written example_provider 5 example_argv
                  example_files)).
  vm_compute. reflexivity.
Defined.

Lemma appended_head path q : appended [ReadFile path; StatsCall q] = [].
Proof. reflexivity. Qed.

Lemma appended_rm path : appended [RmFile path] = [].
Proof. reflexivity. Qed.

Lemma last_of_completed (a b : Event) (l1 l2 : list Event) out
    (texts : list string) (msg : Event) :
  last (a :: b :: l1 ++ l2 ++ RmFile out :: map (AppendFile out) texts ++ [msg]) = Some msg.
Proof.
  replace (a :: b :: l1 ++ l2 ++ RmFile out :: map (AppendFile out) texts ++ [msg])
    with ((a :: b :: l1 ++ l2 ++ RmFile out :: map (AppendFile out) texts) ++ [msg]).
  - apply last_snoc.
  - cbn. now rewrite <- !app_assoc.
Qed.

(** X12: the closing message of a completed run counts what was written:
    the class based file script reports the number of lines it appended, and
    fetch-issue-titles.js two numbers, for the issues and pull requests and for
    the discussions, whose sum is the number of lines it appended. *)
Theorem closing_message_counts_the_lines
    (prov : Provider) (fuel : nat) (argv : list string) (fs : gmap string string) :
  (completion (FileScript.main prov fuel argv fs) = Normal tt ->
   last (events (FileScript.main prov fuel argv fs))
   = Some (ConsoleLog
             ("Written "
              +:+ show (Z.of_nat (length (appended (events (FileScript.main prov fuel argv fs)))))
              +:+ " titles to " +:+ argv_at argv 5))) /\
  (completion (FunctionScript.main prov fuel argv fs) = Normal tt ->
   exists issuesAndPulls discussions : nat,
     last (events (FunctionScript.main prov fuel argv fs))
     = Some (ConsoleLog
               ("Written " +:+ show (Z.of_nat issuesAndPulls) +:+ " issue/pull request and "
                +:+ show (Z.of_nat discussions) +:+ " discussion titles to "
                +:+ argv_at argv 5)) /\
     (issuesAndPulls + discussions)%nat
     = length (appended (events (FunctionScript.main prov fuel argv fs)))).
Proof.
  split.
  - file_cases prov fuel argv fs; rewrite Hrun; cbn [completion events];
      intros Hdone; try discriminate Hdone.
    rewrite last_of_completed.
    change (ReadFile ?a :: StatsCall ?b :: ?l) with ([ReadFile a; StatsCall b] ++ l).
    rewrite !appended_app.
    change (RmFile ?a :: ?l) with ([RmFile a] ++ l). rewrite !appended_app, appended_map.
    rewrite (appended_quiet (events (FileScript.RESTTitleFetcher_fetch _ _ _ _ _ _)))
      by apply quiet_events, rest_fetch_quiet, collect_lines_quiet.
    rewrite (appended_quiet (events (FileScript.GraphQLTitleFetcher_fetch _ _ _ _ _ _ _ _)))
      by apply quiet_events, cursor_fetch_quiet.
    rewrite appended_head, appended_rm. cbn [app]. rewrite app_nil_r.
    unfold as_lines. now rewrite length_map.
  - function_cases prov fuel argv fs; rewrite Hrun; cbn [completion events];
      intros Hdone; try discriminate Hdone.
    exists (length rest), (length disc).
    rewrite last_of_completed.
    change (ReadFile ?a :: StatsCall ?b :: ?l) with ([ReadFile a; StatsCall b] ++ l).
    rewrite !appended_app.
    change (RmFile ?a :: ?l) with ([RmFile a] ++ l). rewrite !appended_app, appended_map.
    rewrite (appended_quiet (events (FunctionScript.fetchIssueTitles _ _ _ _ _ _)))
      by apply quiet_events, rest_fetch_quiet, collect_lines_quiet.
    rewrite (appended_quiet (events (FunctionScript.fetchItemTitles _ _ _ _ _ _ _ _)))
      by apply quiet_events, cursor_fetch_quiet.
    rewrite appended_head, appended_rm. cbn [app]. rewrite app_nil_r.
    split; [reflexivity | ]. unfold as_lines. rewrite length_map, length_app. lia.
Qed.

Lemma closing_message_counts_the_lines_witness :
  last (events (FileScript.main example_provider 5 example_argv example_files))
  = Some (ConsoleLog
            ("Written "
             +:+ show (Z.of_nat (length (appended (events (FileScript.main example_provider 5
                                                            example_argv example_files)))))
             +:+ " titles to " +:+ argv_at example_argv 5)).
Proof.
  apply (proj1 (closing_message_counts_the_lines example_provider 5 example_argv example_files)).
  vm_compute. reflexivity.
Defined.

(** X13: the stdout script never changes a file, in any run: it reads the
    token file and nothing else touches the file system, whatever is given as
    fourth argument. *)
Theorem stdout_script_changes_no_file
    (prov : Provider) (fuel : nat) (argv : list string) (fs : gmap string string) :
  files_after (StdoutScript.main prov fuel argv fs) = fs /\
  Forall (fun e => is_file_write e = false) (events (StdoutScript.main prov fuel argv fs)).
Proof.
  destruct (Nat.lt_ge_cases (length argv) 5) as [Hfew | Hargs].
  - rewrite StdoutScript_usage by assumption. split; [reflexivity | repeat constructor].
  - pose proof (StdoutScript_quiet prov fuel argv Hargs fs) as (Hf & He & _). now split.
Qed.

Lemma stdout_text_app (l1 l2 : list Event) :
  stdout_text (l1 ++ l2) = stdout_text l1 ++ stdout_text l2.
Proof. unfold stdout_text. apply omap_app. Qed.

Lemma stdout_text_silent (evs : list Event) :
  Forall (fun e => silent_on_stdout e = true) evs -> stdout_text evs = [].
Proof.
  unfold stdout_text. induction 1 as [ | e evs He _ IH]; [reflexivity | ].
  destruct e as [[ | ] ? | | | | | | | | ]; try discriminate He; cbn; exact IH.
Qed.

Lemma stdout_text_logs {A} (f : A -> string) (items : list A) :
  stdout_text (map (fun item => ConsoleLog (f item)) items) = as_lines (map f items).
Proof.
  unfold stdout_text, as_lines.
  induction items as [ | item items IH]; [reflexivity | ]. cbn. now rewrite IH.
Qed.

Lemma stderr_fetches_silent prov fuel owner repo authKey limit totalCount fs :
  Forall (fun e => silent_on_stdout e = true)
    (events (StdoutScript.RESTTitleFetcher_fetch prov owner repo authKey limit fs)
     ++ events (StdoutScript.GraphQLTitleFetcher_fetch prov fuel owner repo authKey
                  totalCount "discussions" fs)).
Proof.
  apply Forall_app. split.
  - apply rest_fetch_emits; try reflexivity. intros. apply collect_items_emits.
  - apply cursor_fetch_emits; reflexivity.
Qed.

(** X14: a completed run of the stdout script puts on standard output one
    line [number,title] per item, the items of the paged fetch before those of
    the cursor fetch, and then its closing message as one more line; nothing
    else (progress and errors go to standard error).  When no fourth argument
    was given, the closing message names the file "undefined". *)
Theorem stdout_script_prints_records_then_summary
    (prov : Provider) (fuel : nat) (argv : list string) (fs : gmap string string)
    (authKey : string) (resp : StatsResponse) (rest disc : list Item) :
  let owner := argv_at argv 2 in
  let repo := argv_at argv 3 in
  let counts := counts_of resp in
  let r := StdoutScript.main prov fuel argv fs in
  (5 <= length argv)%nat ->
  fs !! argv_at argv 4 = Some authKey ->
  stats_answer prov (stats_request owner repo authKey) = Resolves resp ->
  completion (StdoutScript.RESTTitleFetcher_fetch prov owner repo authKey
                (issues counts + pullRequests counts) fs) = Normal rest ->
  completion (StdoutScript.GraphQLTitleFetcher_fetch prov fuel owner repo authKey
                (discussions counts) "discussions" fs) = Normal disc ->
  completion r = Normal tt /\
  stdout_text (events r)
  = as_lines (map title_line (rest ++ disc)
              ++ ["Written " +:+ show (Z.of_nat (length (rest ++ disc)))
                  +:+ " titles to " +:+ argv_at argv 5]) /\
  (length argv = 5%nat -> argv_at argv 5 = "undefined").
Proof.
  intros owner repo counts r Hargs Hkey Hstats Hrest Hdisc. subst r owner repo counts.
  rewrite (StdoutScript_completes _ _ _ _ authKey resp rest disc) by assumption.
  cbn [completion events]. split; [reflexivity | split].
  - change (ReadFile ?a :: StatsCall ?b :: ?l) with ([ReadFile a; StatsCall b] ++ l).
    rewrite !stdout_text_app, stdout_text_logs.
    pose proof (stderr_fetches_silent prov fuel (argv_at argv 2) (argv_at argv 3) authKey
                  (issues (counts_of resp) + pullRequests (counts_of resp))
                  (discussions (counts_of resp)) fs) as Hsilent.
    apply Forall_app in Hsilent as [Hsilent1 Hsilent2].
    rewrite (stdout_text_silent _ Hsilent1), (stdout_text_silent _ Hsilent2).
    unfold as_lines. rewrite !map_app. reflexivity.
  - intros Hlen. unfold argv_at, show_undefined.
    rewrite lookup_ge_None_2 by lia. reflexivity.
Qed.

Lemma stdout_script_prints_records_then_summary_witness :
  let short := ["node"; "fetch.js"; "octo"; "demo"; "token.txt"] in
  let r := StdoutScript.main example_provider 5 short example_files in
  let rest := [ {| number := 1; title := "bug" |}; {| number := 2; title := "fix" |} ] in
  let disc := [ {| number := 7; title := "idea" |}; {| number := 8; title := "poll" |} ] in
  completion r = Normal tt /\
  stdout_text (events r)
  = as_lines (map title_line (rest ++ disc)
              ++ ["Written " +:+ show (Z.of_nat (length (rest ++ disc)))
                  +:+ " titles to " +:+ argv_at short 5]) /\
  (length short = 5%nat -> argv_at short 5 = "undefined").
Proof.
  apply (stdout_script_prints_records_then_summary example_provider 5
           ["node"; "fetch.js"; "octo"; "demo"; "token.txt"] example_files
           "s3cret" example_stats);
    vm_compute; reflexivity.
Defined.

(** X18: with enough arguments but no readable token file, each script
    stops on the error of reading it, before any request and any change of a
    file. *)
Theorem missing_token_file_stops_the_run
    (prov : Provider) (fuel : nat) (argv : list string) (fs : gmap string string) :
  let failure :=
    mkResult (Stopped (Throw (SystemError "ENOENT"))) fs [ReadFile (argv_at argv 4)] in
  fs !! argv_at argv 4 = None ->
  ((6 <= length argv)%nat ->
   FunctionScript.main prov fuel argv fs = failure /\
   FileScript.main prov fuel argv fs = failure) /\
  ((5 <= length argv)%nat -> StdoutScript.main prov fuel argv fs = failure).
Proof.
  intros failure Hkey. split; [intros Hargs; split | intros Hargs].
  - now apply FunctionScript_no_key.
  - now apply FileScript_no_key.
  - now apply StdoutScript_no_key.
Qed.

Lemma missing_token_file_stops_the_run_witness :
  let failure :=
    mkResult (Stopped (Throw (SystemError "ENOENT"))) (∅ : gmap string string)
      [ReadFile (argv_at example_argv 4)] in
  FunctionScript.main example_provider 5 example_argv ∅ = failure /\
  FileScript.main example_provider 5 example_argv ∅ = failure.
Proof.
  apply (proj1 (missing_token_file_stops_the_run example_provider 5 example_argv ∅
                  (lookup_empty _))).
  vm_compute. reflexivity.
Defined.

(** ** Counting the requests of a run *)

Lemma cursor_fetch_served prov progress R keep owner repo authKey itemType
    fuel totalCount fs rs k c last :
  served prov (titles_request owner repo authKey itemType) 1 None rs k c ->
  titles_answer prov k (titles_request owner repo authKey itemType c) = Resolves last ->
  hasNextPage (pageInfo last) = false ->
  (length rs < fuel)%nat ->
  cursor_fetch prov progress R keep fuel owner repo authKey itemType totalCount fs =
  mkResult (Normal (records_of keep (rs ++ [last]))) fs
    (rounds_events progress itemType (Math_ceil (js_div totalCount perPage))
       (titles_request owner repo authKey itemType) 1 None rs
     ++ [round_progress progress itemType (Math_ceil (js_div totalCount perPage)) k;
         TitlesCall (titles_request owner repo authKey itemType c)]).
Proof.
  intros Hs Ha Hn Hfuel.
  replace fuel with (length rs + S (fuel - S (length rs)))%nat by lia.
  rewrite (cursor_fetch_rounds prov progress R keep owner repo authKey itemType
             _ totalCount fs rs k c Hs).
  cbn zeta.
  rewrite (loop_last prov progress R keep owner repo authKey itemType _ _ _ fs last)
    by (cbn; auto).
  cbn [completion files_after events itemTitles next_state page cursor].
  unfold records_of. rewrite flat_map_app. cbn [flat_map]. now rewrite app_nil_r.
Qed.

Lemma filter_none {A} (f : A -> bool) (l : list A) :
  Forall (fun x => f x = false) l -> List.filter f l = [].
Proof. induction 1 as [ | x l Hx _ IH]; [reflexivity | ]. cbn. now rewrite Hx. Qed.

Lemma rest_request_count prov progress owner repo authKey limit fs :
  length (List.filter is_network
            (events (rest_fetch prov progress string collect_lines owner repo authKey
                       limit fs)))
  = Z.to_nat (Math_ceil (js_div limit perPage)).
Proof.
  rewrite (rest_fetch_run prov progress string collect_lines title_line ltac:(reflexivity)).
  cbn zeta. cbn [events].
  rewrite List.filter_app, rest_calls_of_dispatch, rest_calls_of_errors, app_nil_r.
  unfold pages_upto. now rewrite !length_map, length_seq.
Qed.

Lemma no_request_while_writing out (texts : list string) msg :
  List.filter is_network (RmFile out :: map (AppendFile out) texts ++ [ConsoleLog msg]) = [].
Proof.
  apply filter_none. constructor; [reflexivity | ].
  apply Forall_app. split; [apply Forall_appends; reflexivity | repeat constructor].
Qed.

(** X17: a run of a file script whose count probe succeeds and whose
    discussions are served in n pages makes exactly
    1 + ceil((issues + pullRequests) / 100) + n requests: the probe, one
    request per REST page and one per cursor page. *)
Theorem requests_of_a_served_run
    (prov : Provider) (fuel : nat) (argv : list string) (fs : gmap string string)
    (authKey : string) (resp : StatsResponse)
    (rs : list TitlesResponse) (k : Z) (c : option string) (last : TitlesResponse) :
  let owner := argv_at argv 2 in
  let repo := argv_at argv 3 in
  let q := titles_request owner repo authKey "discussions" in
  let restPages :=
    Z.to_nat (Math_ceil (js_div (issues_totalCount resp + pullRequests_totalCount resp)
                           perPage)) in
  (6 <= length argv)%nat ->
  fs !! argv_at argv 4 = Some authKey ->
  stats_answer prov (stats_request owner repo authKey) = Resolves resp ->
  served prov q 1 None rs k c ->
  titles_answer prov k (q c) = Resolves last ->
  hasNextPage (pageInfo last) = false ->
  (length rs < fuel)%nat ->
  length (List.filter is_network (events (FileScript.main prov fuel argv fs)))
  = (1 + restPages + S (length rs))%nat /\
  length (List.filter is_network (events (FunctionScript.main prov fuel argv fs)))
  = (1 + restPages + S (length rs))%nat.
Proof.
  intros owner repo q restPages Hargs Hkey Hstats Hs Ha Hn Hfuel.
  subst owner repo q restPages. split.
  - destruct (rest_lines_normal prov stderr (argv_at argv 2) (argv_at argv 3) authKey
                (issues (counts_of resp) + pullRequests (counts_of resp)) fs)
      as [rest Hrest].
    pose proof (cursor_fetch_served prov stderr string title_line (argv_at argv 2)
                  (argv_at argv 3) authKey "discussions" fuel
                  (discussions (counts_of resp)) fs rs k c last Hs Ha Hn Hfuel) as Hcursor.
    rewrite (FileScript_completes prov fuel argv fs authKey resp rest
               (records_of title_line (rs ++ [last])))
      by (try assumption; unfold FileScript.GraphQLTitleFetcher_fetch; now rewrite Hcursor).
    cbn [completion events].
    change (ReadFile ?a :: StatsCall ?b :: ?l) with ([ReadFile a; StatsCall b] ++ l).
    rewrite !List.filter_app, no_request_while_writing, !length_app.
    unfold FileScript.RESTTitleFetcher_fetch, FileScript.GraphQLTitleFetcher_fetch.
    rewrite rest_request_count, Hcursor. cbn [events].
    rewrite List.filter_app, length_app, calls_of_rounds. cbn. lia.
  - destruct (rest_lines_normal prov stdout (argv_at argv 2) (argv_at argv 3) authKey
                (issues (counts_of resp) + pullRequests (counts_of resp)) fs)
      as [rest Hrest].
    pose proof (cursor_fetch_served prov stdout string title_line (argv_at argv 2)
                  (argv_at argv 3) authKey "discussions" fuel
                  (discussions (counts_of resp)) fs rs k c last Hs Ha Hn Hfuel) as Hcursor.
    rewrite (FunctionScript_completes prov fuel argv fs authKey resp rest
               (records_of title_line (rs ++ [last])))
      by (try assumption; unfold FunctionScript.fetchItemTitles; now rewrite Hcursor).
    cbn [completion events].
    change (ReadFile ?a :: StatsCall ?b :: ?l) with ([ReadFile a; StatsCall b] ++ l).
    rewrite !List.filter_app, no_request_while_writing, !length_app.
    unfold FunctionScript.fetchIssueTitles, FunctionScript.fetchItemTitles.
    rewrite rest_request_count, Hcursor. cbn [events].
    rewrite List.filter_app, length_app, calls_of_rounds. cbn. lia.
Qed.

Lemma requests_of_a_served_run_witness :
  length (List.filter is_network
            (events (FileScript.main example_provider 5 example_argv example_files)))
  = (1 + Z.to_nat (Math_ceil (js_div (150 + 50) perPage))
     + S (length [example_discussions_1]))%nat.
Proof.
  apply (proj1 (requests_of_a_served_run example_provider 5 example_argv example_files
                  "s3cret" example_stats [example_discussions_1] 2 (Some "c1")
                  example_discussions_2
                  ltac:(vm_compute; reflexivity) ltac:(vm_compute; reflexivity)
                  ltac:(reflexivity)
                  ltac:(econstructor; [reflexivity | reflexivity | constructor])
                  ltac:(reflexivity) ltac:(reflexivity) ltac:(cbn; lia))).
Defined.

(** ** The format of a line *)

Lemma comma_free_digits (x : N) : forall s,
  comma_free s = true -> comma_free (pretty_N_go x s) = true.
Proof.
  induction (N.lt_wf_0 x) as [x _ IH]. intros s Hs.
  destruct (N.eq_dec x 0%N) as [-> | Hx].
  - now rewrite pretty_N_go_0.
  - rewrite pretty_N_go_step by lia. apply IH.
    + apply N.div_lt; lia.
    + cbn [comma_free]. rewrite Hs, andb_true_r.
      unfold pretty_N_char. repeat case_match; reflexivity.
Qed.

Lemma comma_free_show (z : Z) : comma_free (show z) = true.
Proof.
  unfold show, pretty, pretty_Z. destruct z as [ | p | p]; [reflexivity | | ].
  - unfold pretty, pretty_positive, pretty, pretty_N. case_decide; [reflexivity | ].
    now apply comma_free_digits.
  - change (comma_free (String (Ascii.ascii_of_nat 45) (pretty p)) = true).
    cbn [comma_free]. change (comma_free (pretty p) = true).
    unfold pretty, pretty_positive, pretty, pretty_N. case_decide; [reflexivity | ].
    now apply comma_free_digits.
Qed.

Lemma split_at_first_comma (a b t1 t2 : string) :
  comma_free a = true -> comma_free b = true ->
  a +:+ "," +:+ t1 = b +:+ "," +:+ t2 -> a = b /\ t1 = t2.
Proof.
  revert b. induction a as [ | x a IH]; intros [ | y b] Ha Hb Heq.
  - split; [reflexivity | ]. now inversion Heq.
  - exfalso. inversion Heq; subst y. cbn in Hb. discriminate.
  - exfalso. inversion Heq; subst x. cbn in Ha. discriminate.
  - inversion Heq; subst y. cbn [comma_free] in Ha, Hb.
    apply andb_true_iff in Ha as [_ Ha]. apply andb_true_iff in Hb as [_ Hb].
    destruct (IH b Ha Hb) as [-> ->]; [assumption | ]. split; reflexivity.
Qed.

(** X16: a line determines its record: two items with the same line
    [number,title] have the same number and the same title, whatever commas
    the titles hold, since the number is written without any. *)
Theorem line_determines_record (a b : Item) :
  title_line a = title_line b -> a = b.
Proof.
  unfold title_line. intros Heq.
  apply split_at_first_comma in Heq as [Hn Ht]; try apply comma_free_show.
  apply (inj pretty) in Hn. destruct a, b. cbn in *. now subst.
Qed.

Lemma line_determines_record_witness :
  title_line {| number := 12; title := "a,b" |} = title_line {| number := 12; title := "a,b" |} /\
  {| number := 12; title := "a,b" |} = {| number := 12; title := "a,b" |}.
Proof.
  split; [reflexivity | ].
  apply (line_determines_record {| number := 12; title := "a,b" |}
           {| number := 12; title := "a,b" |}).
  reflexivity.
Defined.

(** ** The two class based scripts, side by side *)

Lemma map_flat_map {A B C} (f : B -> C) (g : A -> list B) (l : list A) :
  map f (flat_map g l) = flat_map (fun x => map f (g x)) l.
Proof.
  induction l as [ | x l IH]; [reflexivity | ]. cbn. now rewrite map_app, IH.
Qed.

Section KeepRelation.
Variable prov : Provider.
Variable progress : Stream.
Variables R1 R2 : Type.
Variable keep1 : Item -> R1.
Variable keep2 : Item -> R2.
Variable conv : R1 -> R2.
Hypothesis conv_keep : forall item, conv (keep1 item) = keep2 item.
Variables owner repo authKey itemType : string.

Lemma page_records_converted (p : Z) :
  map conv (page_records prov keep1 owner repo authKey p)
  = page_records prov keep2 owner repo authKey p.
Proof.
  unfold page_records. destruct (rest_answer _ _); [ | reflexivity].
  rewrite map_map. apply map_ext. exact conv_keep.
Qed.

Lemma next_state_converted (st : LoopState R1) (resp : TitlesResponse) :
  next_state keep2 (convert_state conv st) resp
  = convert_state conv (next_state keep1 st resp).
Proof.
  unfold next_state, convert_state. cbn. f_equal.
  rewrite map_app, map_map. f_equal. apply map_ext. intros item. now rewrite conv_keep.
Qed.

Lemma loop_converted totalPages fs (fuel : nat) : forall st,
  while_hasNextPage prov progress R2 keep2 fuel owner repo authKey itemType totalPages
    (convert_state conv st) fs =
  let r := while_hasNextPage prov progress R1 keep1 fuel owner repo authKey itemType
             totalPages st fs in
  mkResult (convert_completion (convert_state conv) (completion r))
           (files_after r) (events r).
Proof.
  induction fuel as [ | fuel IH]; intros st; cbn zeta.
  - destruct (more st) eqn:Hm.
    + rewrite !loop_no_fuel by (cbn; assumption). reflexivity.
    + rewrite !loop_done by (cbn; assumption). reflexivity.
  - destruct (more st) eqn:Hm.
    + rewrite !loop_step by (cbn; assumption). cbn [convert_state page cursor].
      destruct (titles_answer prov (page st) _) as [resp | cause]; [ | reflexivity].
      cbn zeta. fold (convert_state conv st). rewrite next_state_converted, IH.
      reflexivity.
    + rewrite !loop_done by (cbn; assumption). reflexivity.
Qed.

Lemma cursor_fetch_converted fuel totalCount fs :
  cursor_fetch prov progress R2 keep2 fuel owner repo authKey itemType totalCount fs =
  let r := cursor_fetch prov progress R1 keep1 fuel owner repo authKey itemType
             totalCount fs in
  mkResult (convert_completion (map conv) (completion r)) (files_after r) (events r).
Proof.
  unfold cursor_fetch, bind.
  change {| itemTitles := @nil R2; more := true; cursor := None; page := 1 |}
    with (convert_state conv
            {| itemTitles := @nil R1; more := true; cursor := None; page := 1 |}).
  rewrite loop_converted. cbn zeta. cbn [completion files_after events].
  destruct (completion (while_hasNextPage prov progress R1 keep1 fuel owner repo authKey
                          itemType _ _ fs)); reflexivity.
Qed.
End KeepRelation.

Lemma stdout_text_of_completed {A} (a b : Event) (l1 l2 : list Event)
    (f : A -> string) (items : list A) (msg : string) :
  silent_on_stdout a = true -> silent_on_stdout b = true ->
  Forall (fun e => silent_on_stdout e = true) l1 ->
  Forall (fun e => silent_on_stdout e = true) l2 ->
  stdout_text (a :: b :: l1 ++ l2 ++ map (fun item => ConsoleLog (f item)) items
               ++ [ConsoleLog msg])
  = as_lines (map f items) ++ [msg +:+ LF].
Proof.
  intros Ha Hb H1 H2.
  change (a :: b :: ?l) with ([a; b] ++ l).
  rewrite !stdout_text_app, stdout_text_logs.
  rewrite (stdout_text_silent [a; b]) by (repeat constructor; assumption).
  rewrite (stdout_text_silent l1 H1), (stdout_text_silent l2 H2). reflexivity.
Qed.

Lemma appended_of_completed (a b : Event) (l1 l2 : list Event) out
    (texts : list string) (msg : string) :
  is_file_write a = false -> is_file_write b = false ->
  Forall (fun e => is_file_write e = false) l1 ->
  Forall (fun e => is_file_write e = false) l2 ->
  appended (a :: b :: l1 ++ l2 ++ RmFile out :: map (AppendFile out) texts
            ++ [ConsoleLog msg])
  = texts.
Proof.
  intros Ha Hb H1 H2.
  change (a :: b :: ?l) with ([a; b] ++ l).
  change (RmFile out :: ?l) with ([RmFile out] ++ l).
  rewrite !appended_app, appended_map, appended_rm.
  rewrite (appended_quiet [a; b]) by (repeat constructor; assumption).
  rewrite (appended_quiet l1 H1), (appended_quiet l2 H2).
  cbn. now rewrite app_nil_r.
Qed.

Lemma file_rest_of_stdout_rest prov owner repo authKey limit fs (rest : list Item) :
  completion (StdoutScript.RESTTitleFetcher_fetch prov owner repo authKey limit fs)
  = Normal rest ->
  completion (FileScript.RESTTitleFetcher_fetch prov owner repo authKey limit fs)
  = Normal (map title_line rest).
Proof.
  unfold StdoutScript.RESTTitleFetcher_fetch, FileScript.RESTTitleFetcher_fetch.
  rewrite (rest_fetch_run prov stderr Item collect_items number_and_title
             ltac:(reflexivity)).
  rewrite (rest_fetch_run prov stderr string collect_lines title_line ltac:(reflexivity)).
  cbn. intros Heq. inversion Heq. f_equal. rewrite map_flat_map.
  apply flat_map_ext. intros p.
  symmetry. now apply page_records_converted.
Qed.

Lemma file_cursor_of_stdout_cursor prov fuel owner repo authKey limit itemType fs :
  completion (FileScript.GraphQLTitleFetcher_fetch prov fuel owner repo authKey limit
                itemType fs)
  = convert_completion (map title_line)
      (completion (StdoutScript.GraphQLTitleFetcher_fetch prov fuel owner repo authKey
                     limit itemType fs)).
Proof.
  unfold StdoutScript.GraphQLTitleFetcher_fetch, FileScript.GraphQLTitleFetcher_fetch.
  rewrite (cursor_fetch_converted prov stderr Item string number_and_title title_line
             title_line ltac:(reflexivity)).
  reflexivity.
Qed.

(** X15: the two class based scripts differ in their sink only: whenever the
    file script completes, the stdout script, started the same way, completes
    too and has printed, line for line, what the file script has appended to
    its output file, followed by the closing message with the same count. *)
Theorem stdout_script_prints_what_file_script_writes
    (prov : Provider) (fuel : nat) (argv : list string) (fs : gmap string string) :
  completion (FileScript.main prov fuel argv fs) = Normal tt ->
  completion (StdoutScript.main prov fuel argv fs) = Normal tt /\
  stdout_text (events (StdoutScript.main prov fuel argv fs))
  = appended (events (FileScript.main prov fuel argv fs))
    ++ [("Written "
         +:+ show (Z.of_nat (length (appended (events (FileScript.main prov fuel argv fs)))))
         +:+ " titles to " +:+ argv_at argv 5) +:+ LF].
Proof.
  file_cases prov fuel argv fs; rewrite Hrun; cbn [completion events];
    intros Hdone; try discriminate Hdone.
  destruct (rest_items_normal prov argv fs authKey
              (issues (counts_of resp) + pullRequests (counts_of resp)))
    as [items Hitems].
  pose proof (file_rest_of_stdout_rest _ _ _ _ _ _ _ Hitems) as Hrest'.
  unfold FileScript.RESTTitleFetcher_fetch in Hrest'.
  rewrite Hrest in Hrest'. inversion Hrest'; subst rest. clear Hrest'.
  pose proof (file_cursor_of_stdout_cursor prov fuel (argv_at argv 2) (argv_at argv 3)
                authKey (discussions (counts_of resp)) "discussions" fs) as Hcursor'.
  rewrite Hcursor in Hcursor'.
  destruct (completion (StdoutScript.GraphQLTitleFetcher_fetch prov fuel (argv_at argv 2)
                          (argv_at argv 3) authKey (discussions (counts_of resp))
                          "discussions" fs)) as [talks | stop] eqn:Htalks;
    cbn [convert_completion] in Hcursor'; [ | discriminate Hcursor'].
  inversion Hcursor'; subst disc. clear Hcursor'.
  rewrite (StdoutScript_completes prov fuel argv fs authKey resp items talks)
    by (try assumption; lia).
  cbn [completion events]. split; [reflexivity | ].
  rewrite appended_of_completed; try reflexivity;
    [ | apply quiet_events, rest_fetch_quiet, collect_lines_quiet
      | apply quiet_events, cursor_fetch_quiet ].
  pose proof (stderr_fetches_silent prov fuel (argv_at argv 2) (argv_at argv 3) authKey
                (issues (counts_of resp) + pullRequests (counts_of resp))
                (discussions (counts_of resp)) fs) as Hsilent.
  apply Forall_app in Hsilent as [Hsilent1 Hsilent2].
  rewrite (stdout_text_of_completed _ _ _ _ title_line) by (reflexivity || assumption).
  rewrite map_app. unfold as_lines. rewrite !length_map, !length_app, !length_map.
  reflexivity.
Qed.

Lemma stdout_script_prints_what_file_script_writes_witness :
  completion (FileScript.main example_provider 5 example_argv example_files) = Normal tt /\
  completion (StdoutScript.main example_provider 5 example_argv example_files) = Normal tt /\
  stdout_text (events (StdoutScript.main example_provider 5 example_argv example_files))
  = appended (events (FileScript.main example_provider 5 example_argv example_files))
    ++ [("Written "
         +:+ show (Z.of_nat (length (appended (events (FileScript.main example_provider 5
                                                         example_argv example_files)))))
         +:+ " titles to " +:+ argv_at example_argv 5) +:+ LF].
Proof.
  split; [vm_compute; reflexivity | ].
  apply (stdout_script_prints_what_file_script_writes example_provider 5 example_argv
           example_files).
  vm_compute. reflexivity.
Defined.

(** X19: the file does not determine the records: titles are written as
    they are, so a line feed inside a title starts a new line, and two
    different sequences of records can give the same output. *)
Theorem output_does_not_determine_records :
  exists records1 records2 : list Item,
    records1 <> records2 /\
    join (as_lines (map title_line records1)) = join (as_lines (map title_line records2)).
Proof.
  exists [ {| number := 1; title := "a" +:+ LF +:+ "2,b" |} ],
         [ {| number := 1; title := "a" |}; {| number := 2; title := "b" |} ].
  split; [discriminate | vm_compute; reflexivity].
Qed.
